(** * WriteFlow AI: the authorization gate, the rate limiter, the prompt
      composer and the completion client of [main.py]

    A shallow embedding of the request path of the FastAPI backend:

      inbound request -> [_authorize] -> prompt composition -> [_call_openai]

    Python [str] values are Rocq [string]s (a header value reaches the code
    decoded as latin-1, one character per byte).  The process-wide dictionary
    [_rate_limit : dict[str, list[float]]] is a [gmap string (list Z)]; a
    reading of [time.time()] is an explicit argument [now], counted in whole
    time units.  Code that raises [HTTPException] returns [Raise]; the
    dictionary is mutated in place, so the state reached before a raise is
    kept. *)

From Stdlib Require Import ZArith Lia String Ascii List.
From stdpp Require Import gmap strings list fin_maps sorting.

Local Open Scope Z_scope.
Local Open Scope string_scope.
Local Open Scope list_scope.

(** ** Python string primitives used by the gate *)

Module PyStr.

(** [str.isspace] on one character of the latin-1 range: the ASCII
    separators 0x09-0x0D and 0x1C-0x1F, the blank, NEL and NBSP. *)
Definition isspace (c : ascii) : bool :=
  let n := N_of_ascii c in
  ((9 <=? n) && (n <=? 13) || (28 <=? n) && (n <=? 32)
   || (n =? 133) || (n =? 160))%N.

(** [str.lower] on one character of the latin-1 range. *)
Definition lower_char (c : ascii) : ascii :=
  let n := N_of_ascii c in
  if ((65 <=? n) && (n <=? 90)
      || (192 <=? n) && (n <=? 222) && negb (n =? 215))%N
  then ascii_of_N (n + 32) else c.

Fixpoint lower (s : string) : string :=
  match s with
  | EmptyString => EmptyString
  | String c s' => String (lower_char c) (lower s')
  end.

(** [s.split()] without a separator: maximal runs of characters that are
    not white space, [word] being the run read so far. *)
Fixpoint split_from (word s : string) : list string :=
  match s with
  | EmptyString => if decide (word = "") then [] else [word]
  | String c s' =>
      if isspace c
      then (if decide (word = "") then split_from "" s'
            else word :: split_from "" s')
      else split_from (word +:+ String c "") s'
  end.

Definition split (s : string) : list string := split_from "" s.

(** Truth value of an [Optional[str]]: [None] and the empty string are
    false. *)
Definition truthy (o : option string) : bool :=
  match o with
  | None | Some "" => false
  | Some _ => true
  end.

(** [o or d] for an [Optional[str]]. *)
Definition or_else (o : option string) (d : string) : string :=
  match o with
  | None | Some "" => d
  | Some s => s
  end.

(** [f"{o}"] for an [Optional[str]]. *)
Definition format (o : option string) : string :=
  match o with
  | None => "None"
  | Some s => s
  end.

End PyStr.

(** ** Outcomes and the state of the process *)

Record HTTPException := mkHTTPException {
  status_code : Z;
  detail : string
}.

Inductive result (A : Type) : Type :=
| Ok (a : A)
| Raise (e : HTTPException).
Arguments Ok {A} a.
Arguments Raise {A} e.

#[global] Instance HTTPException_eq_dec : EqDecision HTTPException.
Proof. solve_decision. Defined.

#[global] Instance result_eq_dec `{EqDecision A} : EqDecision (result A).
Proof. solve_decision. Defined.

Definition is_ok {A} (r : result A) : bool :=
  match r with Ok _ => true | Raise _ => false end.

(** What [client.chat.completions.create] is called with. *)
Record ChatRequest := mkChatRequest {
  req_model : string;
  req_system : string;
  req_user : string;
  req_max_tokens : Z
}.

(** The only state that outlives a request is [_rate_limit]; [sent] records
    the calls made to the upstream provider, oldest first. *)
Record World := mkWorld {
  _rate_limit : gmap string (list Z);
  sent : list ChatRequest
}.

Definition M (A : Type) : Type := World -> result A * World.

Definition ret {A} (a : A) : M A := fun w => (Ok a, w).
Definition raise {A} (e : HTTPException) : M A := fun w => (Raise e, w).
Definition bind {A B} (c : M A) (k : A -> M B) : M B :=
  fun w => match c w with
           | (Ok a, w') => k a w'
           | (Raise e, w') => (Raise e, w')
           end.

Notation "x <- c ;; k" := (bind c (fun x => k))
  (at level 100, c at next level, right associativity).

(** ** Rate limiting (in memory, per token) *)

Definition RATE_LIMIT_WINDOW : Z := 60.
Definition RATE_LIMIT_MAX : nat := 20.

(** The list stored for [token], [[]] when the token has none yet (what
    [setdefault(token, [])] hands back). *)
Definition hits_of (token : string) (w : World) : list Z :=
  default [] (_rate_limit w !! token).

Definition set_hits (token : string) (hits : list Z) (w : World) : World :=
  mkWorld (<[token := hits]> (_rate_limit w)) (sent w).

(** [[t for t in hits if now - t < RATE_LIMIT_WINDOW]] *)
Definition prune (now : Z) (hits : list Z) : list Z :=
  filter (fun t => now - t < RATE_LIMIT_WINDOW) hits.

Definition _check_rate_limit (now : Z) (token : string) : M unit :=
  fun w =>
    let hits := prune now (hits_of token w) in
    if decide (RATE_LIMIT_MAX <= length hits)%nat
    then (Raise (mkHTTPException 429
            "Rate limit exceeded. Please wait before making more requests."),
          set_hits token hits w)
    else (Ok tt, set_hits token (hits ++ [now]) w).

(** ** The authorization gate *)

Section Gate.

Variable MASTER_API_KEY : string.

Definition VALID_ACCESS_TOKENS : gset string := {[ MASTER_API_KEY ]}.

(** [len(parts) != 2 or parts[0].lower() != "bearer"] is read off the shape
    of [parts]: the second test runs only on a list of two parts. *)
Definition _authorize (now : Z) (authorization : option string) : M string :=
  if negb (PyStr.truthy authorization)
  then raise (mkHTTPException 401 "Missing Authorization header")
  else
    match PyStr.split (default "" authorization) with
    | [scheme; token] =>
        if negb (String.eqb (PyStr.lower scheme) "bearer")
        then raise (mkHTTPException 401
               "Invalid Authorization format. Use: Bearer <token>")
        else if decide (token ∉ VALID_ACCESS_TOKENS)
        then raise (mkHTTPException 403 "Invalid access token")
        else _ <- _check_rate_limit now token ;; ret token
    | _ => raise (mkHTTPException 401
             "Invalid Authorization format. Use: Bearer <token>")
    end.

End Gate.

(** A run of the gate: each request is one clock reading and one
    [Authorization] header; the outcome of each is kept with its time. *)
Section GateRun.

Variable MASTER_API_KEY : string.

Fixpoint gate_run (reqs : list (Z * option string)) (w : World)
  : list (Z * result string) * World :=
  match reqs with
  | [] => ([], w)
  | (now, authorization) :: reqs' =>
      let (r, w1) := _authorize MASTER_API_KEY now authorization w in
      let (outs, w2) := gate_run reqs' w1 in
      ((now, r) :: outs, w2)
  end.

End GateRun.

(** The times at which [token] was let through. *)
Definition admitted (token : string) (outs : list (Z * result string))
  : list Z :=
  (filter (fun o => o.2 = Ok token) outs).*1.

(** The token of a header that passes the two shape tests of [_authorize]. *)
Definition bearer_token (authorization : option string) : option string :=
  if negb (PyStr.truthy authorization) then None
  else
    match PyStr.split (default "" authorization) with
    | [scheme; token] =>
        if negb (String.eqb (PyStr.lower scheme) "bearer") then None
        else Some token
    | _ => None
    end.

(** The times of the requests that presented [token] in a well-formed
    header, whatever the rate limiter then said. *)
Definition presented (token : string) (reqs : list (Z * option string))
  : list Z :=
  (filter (fun r => bearer_token r.2 = Some token) reqs).*1.

(** The process as it starts: nothing on record. *)
Definition fresh : World := mkWorld ∅ [].

(** No character of [s] is white space. *)
Fixpoint no_space (s : string) : bool :=
  match s with
  | EmptyString => true
  | String c s' => negb (PyStr.isspace c) && no_space s'
  end.

(** Consecutive rate-limiter checks of one token. *)
Fixpoint checks (token : string) (times : list Z) (w : World)
  : list (result unit) * World :=
  match times with
  | [] => ([], w)
  | now :: times' =>
      let (r, w1) := _check_rate_limit now token w in
      let (rs, w2) := checks token times' w1 in
      (r :: rs, w2)
  end.

(** ** Request and response models *)

Inductive ContentType := blog | product | email | social.

Module GenerateRequest.
Record t := mk {
  type : ContentType;
  prompt : string;
  tone : option string;
  language : option string
}.
End GenerateRequest.

Module RewriteRequest.
Record t := mk {
  text : string;
  style : option string
}.
End RewriteRequest.

Module TranslateRequest.
Record t := mk {
  text : string;
  source_lang : option string;
  target_lang : option string
}.
End TranslateRequest.

Record Usage := mkUsage {
  prompt_tokens : Z;
  completion_tokens : Z;
  total_tokens : Z
}.

Record AIResponse := mkAIResponse {
  content : string;
  usage : Usage;
  model : string
}.

(** ** System prompts per content type *)

Definition nl : string := String "010" "".

Definition SYSTEM_PROMPTS (t : ContentType) : string :=
  match t with
  | blog =>
      "You are an expert blog writer and SEO specialist. "
      +:+ "Write engaging, well-structured blog content with proper headings (using Markdown), "
      +:+ "subheadings, bullet points, and a compelling introduction and conclusion. "
      +:+ "Optimize for readability and SEO. Include a meta description suggestion at the end."
  | product =>
      "You are a world-class copywriter specializing in product descriptions. "
      +:+ "Write compelling, benefit-driven product descriptions that convert. "
      +:+ "Use power words, highlight key features and benefits, include a call-to-action. "
      +:+ "Format with Markdown for readability."
  | email =>
      "You are an email marketing expert with high conversion rates. "
      +:+ "Write professional, engaging emails with a clear subject line suggestion, "
      +:+ "compelling body, and strong call-to-action. "
      +:+ "Format with Markdown. Include subject line at the top."
  | social =>
      "You are a social media content strategist. "
      +:+ "Create engaging social media posts optimized for engagement. "
      +:+ "Include relevant hashtag suggestions, emoji usage where appropriate, "
      +:+ "and format for maximum impact. Provide variations for different platforms "
      +:+ "(Twitter/X, LinkedIn, Instagram) in Markdown format."
  end.

(** ** The upstream provider *)

(** The exception classes the client tells apart; every [RateLimitError] is
    an [APIError], every [APIError] an [Exception]. *)
Inductive ExcClass := RateLimitError | APIError | Exception.

Record PyExc := mkPyExc {
  exc_class : ExcClass;
  exc_str : string
}.

Definition isinstance (e : PyExc) (c : ExcClass) : bool :=
  match exc_class e, c with
  | RateLimitError, _ => true
  | APIError, (APIError | Exception) => true
  | Exception, Exception => true
  | _, _ => false
  end.

(** A chat completion: the message content of each choice, the usage block
    and the model name, each of which the provider may leave out. *)
Record ChatCompletion := mkChatCompletion {
  choices : list (option string);
  resp_usage : option Usage;
  resp_model : option string
}.

Inductive Upstream :=
| Returns (resp : ChatCompletion)
| Raises (e : PyExc).

Section Handlers.

Variables MASTER_API_KEY MODEL : string.
Variable MAX_TOKENS : Z.
(** [client.chat.completions.create], sampling temperature fixed at 0.7. *)
Variable create : ChatRequest -> Upstream.

(** The body of the [try] block of [_call_openai]. *)
Definition build_response (system user : string) : PyExc + AIResponse :=
  match create (mkChatRequest MODEL system user MAX_TOKENS) with
  | Raises e => inl e
  | Returns resp =>
      match choices resp with
      | [] => inl (mkPyExc Exception "list index out of range")
      | message_content :: _ =>
          inr (mkAIResponse
                 (PyStr.or_else message_content "")
                 (mkUsage
                    (match resp_usage resp with
                     | Some u => prompt_tokens u | None => 0 end)
                    (match resp_usage resp with
                     | Some u => completion_tokens u | None => 0 end)
                    (match resp_usage resp with
                     | Some u => total_tokens u | None => 0 end))
                 (PyStr.or_else (resp_model resp) MODEL))
      end
  end.

(** The [except] clauses, tried in the order they are written. *)
Definition handle_exception (e : PyExc) : HTTPException :=
  if isinstance e RateLimitError
  then mkHTTPException 429
         "OpenAI rate limit reached. Please try again shortly."
  else if isinstance e APIError
  then mkHTTPException 502 ("OpenAI API error: " +:+ exc_str e)
  else mkHTTPException 500 ("Internal error: " +:+ exc_str e).

Definition _call_openai (system user : string) : M AIResponse :=
  fun w =>
    let w' := mkWorld (_rate_limit w)
                (sent w ++ [mkChatRequest MODEL system user MAX_TOKENS]) in
    match build_response system user with
    | inr r => (Ok r, w')
    | inl e => (Raise (handle_exception e), w')
    end.

(** *** POST /api/generate *)

Definition generate_system (body : GenerateRequest.t) : string :=
  let system := SYSTEM_PROMPTS (GenerateRequest.type body) in
  let system :=
    if PyStr.truthy (GenerateRequest.tone body)
       && negb (bool_decide (GenerateRequest.tone body = Some "professional"))
    then system +:+ nl +:+ nl +:+ "Use a "
         +:+ PyStr.format (GenerateRequest.tone body) +:+ " tone throughout."
    else system in
  if PyStr.truthy (GenerateRequest.language body)
     && negb (bool_decide (GenerateRequest.language body = Some "en"))
  then system +:+ nl +:+ nl +:+ "Write the content in "
       +:+ PyStr.format (GenerateRequest.language body) +:+ "."
  else system.

Definition generate_content (now : Z) (body : GenerateRequest.t)
    (authorization : option string) : M AIResponse :=
  _ <- _authorize MASTER_API_KEY now authorization ;;
  _call_openai (generate_system body) (GenerateRequest.prompt body).

(** *** POST /api/rewrite *)

Definition style_instructions : gmap string string :=
  list_to_map
    [ ("improved",
       "Improve the clarity, flow, and impact while keeping the original meaning.");
      ("formal", "Rewrite in a formal, professional tone.");
      ("casual", "Rewrite in a casual, conversational tone.");
      ("concise",
       "Make it significantly more concise while keeping key points.");
      ("expanded", "Expand with more detail, examples, and depth.") ].

(** The keys of [style_instructions]. *)
Definition known_styles : list string :=
  ["improved"; "formal"; "casual"; "concise"; "expanded"].

Definition rewrite_instruction (body : RewriteRequest.t) : string :=
  default (style_instructions !!! "improved")
    (style_instructions !! PyStr.or_else (RewriteRequest.style body) "improved").

Definition rewrite_system (body : RewriteRequest.t) : string :=
  "You are an expert editor and writing coach. "
  +:+ rewrite_instruction body +:+ " "
  +:+ "Return the rewritten text in Markdown format. "
  +:+ "After the rewrite, add a brief '---\n**Changes made:**' section listing key improvements.".

Definition rewrite_content (now : Z) (body : RewriteRequest.t)
    (authorization : option string) : M AIResponse :=
  _ <- _authorize MASTER_API_KEY now authorization ;;
  _call_openai (rewrite_system body)
    ("Please rewrite the following text:" +:+ nl +:+ nl
     +:+ RewriteRequest.text body).

(** *** POST /api/translate *)

Definition translate_system : string :=
  "You are a professional translator fluent in all major languages. "
  +:+ "Provide accurate, natural-sounding translations that preserve the original tone and meaning. "
  +:+ "If the source language is Chinese, translate to English. "
  +:+ "If the source language is English, translate to Chinese. "
  +:+ "For other language pairs, follow the user's instructions. "
  +:+ "Format the output in Markdown. After the translation, add a brief note about any "
  +:+ "cultural or contextual adaptations you made.".

Definition translate_user_msg (body : TranslateRequest.t) : string :=
  let user_msg := TranslateRequest.text body in
  if negb (bool_decide (TranslateRequest.source_lang body = Some "auto"))
  then "Translate from " +:+ PyStr.format (TranslateRequest.source_lang body)
       +:+ " to " +:+ PyStr.format (TranslateRequest.target_lang body)
       +:+ ":" +:+ nl +:+ nl +:+ TranslateRequest.text body
  else user_msg.

Definition translate_content (now : Z) (body : TranslateRequest.t)
    (authorization : option string) : M AIResponse :=
  _ <- _authorize MASTER_API_KEY now authorization ;;
  _call_openai translate_system (translate_user_msg body).

End Handlers.

(** ** Names for the outcomes of the gate *)

Definition rate_limited : HTTPException :=
  mkHTTPException 429
    "Rate limit exceeded. Please wait before making more requests.".

(** The header [h] has the shape [Bearer <token>]: two runs of characters
    set apart by white space, the first one reading [bearer] in any case. *)
Definition bearer_shape (h token : string) : Prop :=
  exists scheme, PyStr.split h = [scheme; token]
                 /\ PyStr.lower scheme = "bearer".

Definition unauthenticated (e : HTTPException) : Prop := status_code e = 401.

Definition forbidden : HTTPException :=
  mkHTTPException 403 "Invalid access token".

(** Every character of [s] is white space. *)
Fixpoint all_space (s : string) : bool :=
  match s with
  | EmptyString => true
  | String c s' => PyStr.isspace c && all_space s'
  end.

(** What the limiter holds in a state: an entry for registered tokens only,
    none longer than [RATE_LIMIT_MAX]. *)
Definition bounded (valid : gset string) (w : World) : Prop :=
  dom (_rate_limit w) ⊆ valid
  /\ forall token, (length (hits_of token w) <= RATE_LIMIT_MAX)%nat.

(** The two clauses [generate_content] may append to the base instruction. *)
Definition tone_clause (body : GenerateRequest.t) : string :=
  if PyStr.truthy (GenerateRequest.tone body)
     && negb (bool_decide (GenerateRequest.tone body = Some "professional"))
  then nl +:+ nl +:+ "Use a " +:+ PyStr.format (GenerateRequest.tone body)
       +:+ " tone throughout."
  else "".

Definition language_clause (body : GenerateRequest.t) : string :=
  if PyStr.truthy (GenerateRequest.language body)
     && negb (bool_decide (GenerateRequest.language body = Some "en"))
  then nl +:+ nl +:+ "Write the content in "
       +:+ PyStr.format (GenerateRequest.language body) +:+ "."
  else "".

(** ** Concrete inputs *)

(** Twenty requests of the registered token ["k"] at time 0, twenty more at
    time 1. *)
Definition two_bursts : list (Z * option string) :=
  replicate 20 (0, Some "Bearer k") ++ replicate 20 (1, Some "Bearer k").

(** The same, followed by one request at time 60. *)
Definition two_bursts_then_one : list (Z * option string) :=
  two_bursts ++ [(60, Some "Bearer k")].

(** The state after twenty requests of ["k"] at time 0. *)
Definition full_world : World :=
  (gate_run "k" (replicate 20 (0, Some "Bearer k")) fresh).2.

(** A state in which ["k"] has hits on record, the last one 60 units
    before time 100. *)
Definition idle_world : World := set_hits "k" [0; 10; 40] fresh.

(** A state in which one hit of ["k"] is older than the window of time 100
    and one is not. *)
Definition stale_world : World := set_hits "k" [40; 41] fresh.

(** A provider that is down. *)
Definition demo_create (rq : ChatRequest) : Upstream :=
  Raises (mkPyExc APIError "Connection error.").

(** * Properties *)

(** ** The rate limiter *)

Lemma hits_of_set_hits token hits w :
  hits_of token (set_hits token hits w) = hits.
Proof. unfold hits_of, set_hits; simpl. by rewrite lookup_insert_eq. Qed.

Lemma hits_of_set_hits_ne token token' hits w :
  token ≠ token' -> hits_of token' (set_hits token hits w) = hits_of token' w.
Proof.
  intros Hne. unfold hits_of, set_hits; simpl. by rewrite lookup_insert_ne.
Qed.

Lemma sent_set_hits token hits w : sent (set_hits token hits w) = sent w.
Proof. reflexivity. Qed.

Lemma elem_of_prune now hits t :
  t ∈ prune now hits <-> t ∈ hits /\ now - t < 60.
Proof. unfold prune, RATE_LIMIT_WINDOW. rewrite list_elem_of_filter. tauto. Qed.

Lemma prune_length now hits : (length (prune now hits) <= length hits)%nat.
Proof. apply length_filter. Qed.

Lemma prune_app now hits1 hits2 :
  prune now (hits1 ++ hits2) = prune now hits1 ++ prune now hits2.
Proof. apply filter_app. Qed.

(** Pruning at a later reading of the clock subsumes pruning at an earlier
    one. *)
Lemma prune_prune now now' hits :
  now <= now' -> prune now' (prune now hits) = prune now' hits.
Proof.
  intros Hle. unfold prune. apply list_filter_filter_l.
  unfold RATE_LIMIT_WINDOW. intros t. lia.
Qed.

Lemma prune_all_fresh now hits :
  (forall t, t ∈ hits -> now - t < 60) -> prune now hits = hits.
Proof.
  unfold prune, RATE_LIMIT_WINDOW. induction hits as [|t hits IH]; intros Hall.
  - reflexivity.
  - rewrite filter_cons_True by (apply Hall; left).
    f_equal. apply IH. intros t' Ht'. apply Hall. by right.
Qed.

Lemma prune_all_stale now hits :
  (forall t, t ∈ hits -> now - t >= 60) -> prune now hits = [].
Proof.
  unfold prune, RATE_LIMIT_WINDOW. induction hits as [|t hits IH]; intros Hall.
  - reflexivity.
  - rewrite filter_cons_False.
    + apply IH. intros t' Ht'. apply Hall. by right.
    + specialize (Hall t ltac:(left)). lia.
Qed.

Lemma check_rate_limit_over now token w :
  (RATE_LIMIT_MAX <= length (prune now (hits_of token w)))%nat ->
  _check_rate_limit now token w
  = (Raise rate_limited, set_hits token (prune now (hits_of token w)) w).
Proof. intros H. unfold _check_rate_limit. by rewrite decide_True. Qed.

Lemma check_rate_limit_under now token w :
  (length (prune now (hits_of token w)) < RATE_LIMIT_MAX)%nat ->
  _check_rate_limit now token w
  = (Ok tt, set_hits token (prune now (hits_of token w) ++ [now]) w).
Proof. intros H. unfold _check_rate_limit. rewrite decide_False; [done|lia]. Qed.

(** C1: the check keeps, in order, the timestamps [t] on record for the
    token with [now - t < 60] and drops exactly those with [now - t >= 60],
    the one at [now - 60] included; with 20 or more left it raises 429 and
    the token's entry in the dictionary is the pruned list as it is,
    otherwise the entry is the pruned list followed by [now] and the check
    succeeds; no other entry changes and nothing is sent upstream. *)
Theorem C1_check_rate_limit (now : Z) (token : string) (w : World) :
  let hits := default [] (_rate_limit w !! token) in
  let kept := filter (fun t => ~ (now - t >= 60)) hits in
  let r := (_check_rate_limit now token w).1 in
  let w' := (_check_rate_limit now token w).2 in
  kept `sublist_of` hits
  /\ (forall t, t ∈ kept <-> t ∈ hits /\ ~ (now - t >= 60))
  /\ ((now - 60) ∉ kept)
  /\ ((20 <= length kept)%nat
      /\ r = Raise (mkHTTPException 429
                      "Rate limit exceeded. Please wait before making more requests.")
      /\ _rate_limit w' !! token = Some kept
      \/ (length kept < 20)%nat
         /\ r = Ok tt
         /\ _rate_limit w' !! token = Some (kept ++ [now]))
  /\ (forall token', token' <> token ->
        _rate_limit w' !! token' = _rate_limit w !! token')
  /\ sent w' = sent w.
Proof.
  intros hits kept r w'. subst r w'.
  assert (Hkept : kept = prune now (hits_of token w)).
  { unfold kept, hits, prune, hits_of, RATE_LIMIT_WINDOW.
    apply list_filter_iff. intros t. lia. }
  split; [apply sublist_filter|].
  split; [intros t; unfold kept; rewrite list_elem_of_filter; tauto|].
  split.
  { unfold kept. rewrite list_elem_of_filter. intros [Hn _]. apply Hn. lia. }
  rewrite Hkept.
  destruct (decide (20 <= length (prune now (hits_of token w)))%nat) as [Hge|Hlt].
  - rewrite check_rate_limit_over by exact Hge. cbn [fst snd].
    split; [left; split; [exact Hge|]; split; [reflexivity|]|split].
    + simpl. apply lookup_insert_eq.
    + intros token' Hne. simpl. by rewrite lookup_insert_ne.
    + reflexivity.
  - rewrite check_rate_limit_under by (unfold RATE_LIMIT_MAX; lia).
    cbn [fst snd].
    split; [right; split; [lia|]; split; [reflexivity|]|split].
    + simpl. apply lookup_insert_eq.
    + intros token' Hne. simpl. by rewrite lookup_insert_ne.
    + reflexivity.
Qed.

(** The boundary of the window, on the code: a hit recorded 60 time units
    ago no longer counts, one recorded 59 units ago does. *)
Example prune_boundary :
  prune 100 [39; 40; 41; 100] = [41; 100].
Proof. reflexivity. Qed.

(** While the list of a token has room, consecutive checks all succeed,
    whatever the clock reads. *)
Lemma checks_room token times : forall w,
  (length (hits_of token w) + length times <= RATE_LIMIT_MAX)%nat ->
  (checks token times w).1 = replicate (length times) (Ok tt).
Proof.
  induction times as [|now times IH]; intros w Hlen; [reflexivity|].
  simpl in *.
  pose proof (prune_length now (hits_of token w)) as Hp.
  rewrite check_rate_limit_under by lia.
  destruct (checks token times _) as [rs w2] eqn:Hrun.
  simpl. f_equal.
  change rs with (rs, w2).1. rewrite <- Hrun. apply IH.
  rewrite hits_of_set_hits, length_app. simpl. lia.
Qed.

(** Checks whose times all lie in one window of 60 units, on a list whose
    entries lie there too: nothing is pruned, the list fills up to 20 and
    every later check is refused. *)
Lemma checks_one_window token lo times : forall w,
  (forall t, t ∈ hits_of token w -> lo <= t < lo + 60) ->
  (forall t, t ∈ times -> lo <= t < lo + 60) ->
  (length (hits_of token w) <= RATE_LIMIT_MAX)%nat ->
  (checks token times w).1
  = replicate (min (RATE_LIMIT_MAX - length (hits_of token w)) (length times))
      (Ok tt)
    ++ replicate (length times - (RATE_LIMIT_MAX - length (hits_of token w)))
         (Raise rate_limited).
Proof.
  induction times as [|now times IH]; intros w Hw Ht Hlen.
  { simpl. by rewrite Nat.min_0_r. }
  assert (Hnow : lo <= now < lo + 60) by (apply Ht; left).
  assert (Hkeep : prune now (hits_of token w) = hits_of token w).
  { apply prune_all_fresh. intros t Hin. specialize (Hw t Hin). lia. }
  cbn [checks].
  destruct (decide (length (hits_of token w) < RATE_LIMIT_MAX)%nat) as [Hlt|Hge].
  - rewrite check_rate_limit_under by (rewrite Hkeep; exact Hlt).
    destruct (checks token times _) as [rs w2] eqn:Hrun.
    change rs with (rs, w2).1. rewrite <- Hrun. cbn [fst].
    rewrite IH; rewrite ?hits_of_set_hits, ?Hkeep, ?length_app; simpl.
    + replace (RATE_LIMIT_MAX - length (hits_of token w))%nat
        with (S (RATE_LIMIT_MAX - (length (hits_of token w) + 1)))%nat by lia.
      reflexivity.
    + intros t [Hin| ->%list_elem_of_singleton]%elem_of_app; auto.
    + intros t Hin. apply Ht. by right.
    + lia.
  - rewrite check_rate_limit_over by (rewrite Hkeep; lia).
    destruct (checks token times _) as [rs w2] eqn:Hrun.
    change rs with (rs, w2).1. rewrite <- Hrun. cbn [fst].
    rewrite IH; rewrite ?hits_of_set_hits, ?Hkeep; simpl.
    + replace (RATE_LIMIT_MAX - length (hits_of token w))%nat with 0%nat by lia.
      simpl. by rewrite Nat.sub_0_r.
    + exact Hw.
    + intros t Hin. apply Ht. by right.
    + lia.
Qed.

(** C5: when every recorded hit of a token is at least 60 time units old,
    the check at [now] succeeds and leaves [[now]] alone on record; that
    check and the 19 that follow it, at whatever times, are all let through
    (a quota of 20), and a 21st check inside the window opened at [now] is
    refused. *)
Theorem C5_quota_after_idle (token : string) (now : Z) (w : World)
    (later : list Z) :
  (forall t, t ∈ hits_of token w -> now - t >= 60) ->
  length later = 19%nat ->
  _check_rate_limit now token w = (Ok tt, set_hits token [now] w)
  /\ (checks token (now :: later) w).1 = replicate 20 (Ok tt)
  /\ ((forall t, t ∈ later -> now <= t < now + 60) ->
      forall t', now <= t' < now + 60 ->
      (checks token (now :: later ++ [t']) w).1
      = replicate 20 (Ok tt) ++ [Raise rate_limited]).
Proof.
  intros Hstale Hlen.
  assert (Hp : prune now (hits_of token w) = []) by by apply prune_all_stale.
  assert (Hfirst : _check_rate_limit now token w
                   = (Ok tt, set_hits token [now] w)).
  { rewrite check_rate_limit_under; rewrite Hp; [done|]. unfold RATE_LIMIT_MAX.
    simpl. lia. }
  split; [exact Hfirst|]. split.
  - cbn [checks]. rewrite Hfirst.
    destruct (checks token later _) as [rs w2] eqn:Hrun.
    change rs with (rs, w2).1. rewrite <- Hrun. cbn [fst].
    rewrite checks_room; rewrite ?hits_of_set_hits, ?Hlen; [done|].
    unfold RATE_LIMIT_MAX. simpl. lia.
  - intros Hin t' Ht'. cbn [checks]. rewrite Hfirst.
    destruct (checks token (later ++ [t']) _) as [rs w2] eqn:Hrun.
    change rs with (rs, w2).1. rewrite <- Hrun. cbn [fst].
    rewrite (checks_one_window token now);
      rewrite ?hits_of_set_hits, ?length_app, ?Hlen; unfold RATE_LIMIT_MAX.
    + reflexivity.
    + intros t ->%list_elem_of_singleton. lia.
    + intros t [Ht| ->%list_elem_of_singleton]%elem_of_app; auto.
    + simpl. lia.
Qed.

(** ** The authorization gate *)

Lemma split_empty : PyStr.split "" = [].
Proof. reflexivity. Qed.

Lemma bearer_token_shape authorization token :
  bearer_token authorization = Some token
  <-> exists h, authorization = Some h /\ bearer_shape h token.
Proof.
  split.
  - intros Hb. destruct authorization as [h|]; [|discriminate Hb].
    exists h. split; [done|]. unfold bearer_token in Hb.
    destruct (negb (PyStr.truthy (Some h))); [discriminate|].
    change (default "" (Some h)) with h in Hb.
    destruct (PyStr.split h) as [|scheme [|tok [|x l]]] eqn:Hsplit;
      try discriminate.
    destruct (String.eqb (PyStr.lower scheme) "bearer") eqn:Heq;
      simpl in Hb; [|discriminate].
    injection Hb as ->. exists scheme. split; [done|]. by apply String.eqb_eq.
  - intros (h & -> & scheme & Hsplit & Hlow). unfold bearer_token.
    destruct h as [|c h']; [by rewrite split_empty in Hsplit|].
    change (PyStr.truthy (Some (String c h'))) with true.
    change (default "" (Some (String c h'))) with (String c h').
    cbn [negb]. rewrite Hsplit, Hlow. reflexivity.
Qed.

Section GateFacts.

Variable MASTER_API_KEY : string.

Abbreviation authorize := (_authorize MASTER_API_KEY).

Ltac raises_401 :=
  eexists; split; [|unfold raise; reflexivity]; reflexivity.

Lemma authorize_no_header now w :
  authorize now None w
  = (Raise (mkHTTPException 401 "Missing Authorization header"), w).
Proof. reflexivity. Qed.

Lemma authorize_malformed now authorization w :
  bearer_token authorization = None ->
  exists e, unauthenticated e /\ authorize now authorization w = (Raise e, w).
Proof.
  unfold bearer_token, _authorize.
  destruct (negb (PyStr.truthy authorization)); [raises_401|].
  destruct (PyStr.split _) as [|scheme [|tok [|x l]]]; try raises_401.
  destruct (negb (String.eqb _ _)); [raises_401|discriminate].
Qed.

Lemma authorize_well_formed now authorization token w :
  bearer_token authorization = Some token ->
  authorize now authorization w
  = if decide (token ∉ VALID_ACCESS_TOKENS MASTER_API_KEY)
    then (Raise forbidden, w)
    else (_ <- _check_rate_limit now token ;; ret token) w.
Proof.
  unfold bearer_token, _authorize.
  destruct (negb (PyStr.truthy authorization)); [discriminate|].
  destruct (PyStr.split _) as [|scheme [|tok [|x l]]]; try discriminate.
  destruct (negb (String.eqb _ _)); [discriminate|].
  intros [= ->]. by destruct (decide (token ∉ _)).
Qed.

Lemma authorize_unknown_token now authorization token w :
  bearer_token authorization = Some token ->
  token ∉ VALID_ACCESS_TOKENS MASTER_API_KEY ->
  authorize now authorization w = (Raise forbidden, w).
Proof.
  intros Hb Hv. rewrite (authorize_well_formed _ _ _ _ Hb). by rewrite decide_True.
Qed.

Lemma authorize_known_token now authorization token w :
  bearer_token authorization = Some token ->
  token ∈ VALID_ACCESS_TOKENS MASTER_API_KEY ->
  authorize now authorization w
  = (_ <- _check_rate_limit now token ;; ret token) w.
Proof.
  intros Hb Hv. rewrite (authorize_well_formed _ _ _ _ Hb).
  rewrite decide_False; [done|]. by intros Hn.
Qed.

(** The gate on a registered token, by what the limiter has on record. *)
Lemma authorize_known_under now authorization token w :
  bearer_token authorization = Some token ->
  token ∈ VALID_ACCESS_TOKENS MASTER_API_KEY ->
  (length (prune now (hits_of token w)) < RATE_LIMIT_MAX)%nat ->
  authorize now authorization w
  = (Ok token, set_hits token (prune now (hits_of token w) ++ [now]) w).
Proof.
  intros Hb Hv Hlt. rewrite (authorize_known_token _ _ _ _ Hb Hv).
  unfold bind. by rewrite check_rate_limit_under.
Qed.

Lemma authorize_known_over now authorization token w :
  bearer_token authorization = Some token ->
  token ∈ VALID_ACCESS_TOKENS MASTER_API_KEY ->
  (RATE_LIMIT_MAX <= length (prune now (hits_of token w)))%nat ->
  authorize now authorization w
  = (Raise rate_limited, set_hits token (prune now (hits_of token w)) w).
Proof.
  intros Hb Hv Hge. rewrite (authorize_known_token _ _ _ _ Hb Hv).
  unfold bind. by rewrite check_rate_limit_over.
Qed.

(** C2: the gate tests in this order.  Without a header it raises 401; on a
    header that is not of the shape [Bearer <token>] it raises 401; on a
    well-formed header whose token is not registered it raises 403 and
    leaves the state as it was, whatever the limiter holds; only a
    registered token is handed to the rate limiter, whose verdict is the
    gate's. *)
Theorem C2_gate_order (now : Z) (w : World) :
  authorize now None w
  = (Raise (mkHTTPException 401 "Missing Authorization header"), w)
  /\ (forall h, (forall token, ~ bearer_shape h token) ->
        exists e, unauthenticated e
                  /\ authorize now (Some h) w = (Raise e, w))
  /\ (forall h token, bearer_shape h token ->
        token ∉ VALID_ACCESS_TOKENS MASTER_API_KEY ->
        authorize now (Some h) w = (Raise forbidden, w))
  /\ (forall h token, bearer_shape h token ->
        token ∈ VALID_ACCESS_TOKENS MASTER_API_KEY ->
        authorize now (Some h) w
        = match _check_rate_limit now token w with
          | (Ok _, w') => (Ok token, w')
          | (Raise e, w') => (Raise e, w')
          end).
Proof.
  split; [apply authorize_no_header|]. split; [|split].
  - intros h Hno. apply authorize_malformed.
    destruct (bearer_token (Some h)) as [token|] eqn:Hb; [|done].
    apply bearer_token_shape in Hb as (h' & [= <-] & Hshape).
    by destruct (Hno token).
  - intros h token Hshape Hv. apply (authorize_unknown_token _ _ token); [|done].
    apply bearer_token_shape. eauto.
  - intros h token Hshape Hv.
    rewrite (authorize_known_token _ _ token); [|apply bearer_token_shape; eauto|done].
    unfold bind, ret. by destruct (_check_rate_limit now token w) as [[[]|e] w'].
Qed.

(** Every way through the gate. *)
Lemma authorize_cases now authorization w :
  (bearer_token authorization = None
   /\ exists e, unauthenticated e
                /\ authorize now authorization w = (Raise e, w))
  \/ exists token, bearer_token authorization = Some token /\
       ((token ∉ VALID_ACCESS_TOKENS MASTER_API_KEY)
        /\ authorize now authorization w = (Raise forbidden, w)
        \/ token ∈ VALID_ACCESS_TOKENS MASTER_API_KEY
           /\ (length (prune now (hits_of token w)) < RATE_LIMIT_MAX)%nat
           /\ authorize now authorization w
              = (Ok token,
                 set_hits token (prune now (hits_of token w) ++ [now]) w)
        \/ token ∈ VALID_ACCESS_TOKENS MASTER_API_KEY
           /\ (RATE_LIMIT_MAX <= length (prune now (hits_of token w)))%nat
           /\ authorize now authorization w
              = (Raise rate_limited,
                 set_hits token (prune now (hits_of token w)) w)).
Proof.
  destruct (bearer_token authorization) as [token|] eqn:Hb.
  - right. exists token. split; [done|].
    destruct (decide (token ∈ VALID_ACCESS_TOKENS MASTER_API_KEY)) as [Hv|Hv].
    + destruct (decide (length (prune now (hits_of token w))
                        < RATE_LIMIT_MAX)%nat) as [Hlt|Hge].
      * right; left. eauto using authorize_known_under.
      * right; right. split; [done|]. split; [lia|].
        apply authorize_known_over; [done..|lia].
    + left. eauto using authorize_unknown_token.
  - left. split; [done|]. by apply authorize_malformed.
Qed.

(** The gate calls nobody upstream. *)
Lemma authorize_sent now authorization w :
  sent (authorize now authorization w).2 = sent w.
Proof.
  destruct (authorize_cases now authorization w)
    as [(Hb & e0 & He0 & ->)
       |(tok & Hb & [(Hv & ->)|[(Hv & Hlt & ->)|(Hv & Hge & ->)]])];
    reflexivity.
Qed.

Lemma check_rate_limit_frame now token token' w :
  token <> token' ->
  _rate_limit (_check_rate_limit now token w).2 !! token'
  = _rate_limit w !! token'.
Proof.
  intros Hne. unfold _check_rate_limit.
  destruct (decide _); simpl; by rewrite lookup_insert_ne.
Qed.

(** C10: what a failing gate does to the limiter.  A 401 or a 403 leaves
    the whole state as it was; a 429 replaces the list of the presented
    token by its pruned part, a sublist of what was there, with nothing
    appended; and no check, failing or not, touches the entry of a token
    other than the one presented. *)
Theorem C10_gate_frame (now : Z) (authorization : option string) (w : World) :
  let r := (authorize now authorization w).1 in
  let w' := (authorize now authorization w).2 in
  (forall e, r = Raise e ->
     status_code e = 401 \/ status_code e = 403 \/ status_code e = 429)
  /\ (forall e, r = Raise e ->
        status_code e = 401 \/ status_code e = 403 -> w' = w)
  /\ (forall e, r = Raise e -> status_code e = 429 ->
        exists token,
          bearer_token authorization = Some token
          /\ w' = set_hits token (prune now (hits_of token w)) w
          /\ hits_of token w' = prune now (hits_of token w)
          /\ hits_of token w' `sublist_of` hits_of token w)
  /\ (forall token', bearer_token authorization <> Some token' ->
        _rate_limit w' !! token' = _rate_limit w !! token')
  /\ (forall token token', token <> token' ->
        _rate_limit (_check_rate_limit now token w).2 !! token'
        = _rate_limit w !! token').
Proof.
  intros r w'. subst r w'.
  assert (Hframe : forall token token', token <> token' ->
            _rate_limit (_check_rate_limit now token w).2 !! token'
            = _rate_limit w !! token')
    by (intros; by apply check_rate_limit_frame).
  destruct (authorize_cases now authorization w)
    as [(Hb & e0 & He0 & ->)
       |(token & Hb & [(Hv & ->)|[(Hv & Hlt & ->)|(Hv & Hge & ->)]])];
    cbn [fst snd]; unfold unauthenticated in *.
  - split; [intros e [= <-]; auto|].
    split; [done|].
    split; [intros e [= <-] H429; lia|].
    split; [done|exact Hframe].
  - split; [intros e [= <-]; simpl; auto|].
    split; [done|].
    split; [intros e [= <-] H429; simpl in H429; lia|].
    split; [done|exact Hframe].
  - split; [done|]. split; [done|]. split; [done|].
    split; [|exact Hframe].
    intros token' Hne. simpl. rewrite lookup_insert_ne; congruence.
  - split; [intros e [= <-]; simpl; auto|].
    split; [intros e [= <-]; simpl; intros [|]; lia|].
    split; [|split; [|exact Hframe]].
    + intros e _ _. exists token. rewrite hits_of_set_hits.
      repeat split; try done. apply sublist_filter.
    + intros token' Hne. simpl. rewrite lookup_insert_ne; congruence.
Qed.

(** ** Runs of the gate *)

Abbreviation run := (gate_run MASTER_API_KEY).

Lemma gate_run_app reqs1 reqs2 w :
  run (reqs1 ++ reqs2) w
  = ((run reqs1 w).1 ++ (run reqs2 (run reqs1 w).2).1,
     (run reqs2 (run reqs1 w).2).2).
Proof.
  revert w. induction reqs1 as [|[now a] reqs1 IH]; intros w; simpl.
  - by destruct (run reqs2 w).
  - destruct (authorize now a w) as [r w1]. rewrite IH.
    destruct (run reqs1 w1) as [o1 w2]. simpl.
    by destruct (run reqs2 w2).
Qed.

Lemma gate_run_length reqs w : length (run reqs w).1 = length reqs.
Proof.
  revert w. induction reqs as [|[now a] reqs IH]; intros w; simpl; [done|].
  destruct (authorize now a w) as [r w1]. specialize (IH w1).
  destruct (run reqs w1). simpl in *. by rewrite IH.
Qed.

Lemma admitted_app token outs1 outs2 :
  admitted token (outs1 ++ outs2) = admitted token outs1 ++ admitted token outs2.
Proof. unfold admitted. by rewrite filter_app, fmap_app. Qed.

Lemma admitted_one token now r :
  admitted token [(now, r)] = if decide (r = Ok token) then [now] else [].
Proof. unfold admitted. rewrite filter_cons. simpl. by destruct (decide _). Qed.

(** One gate check, seen from a later reading of the clock: the part of a
    token's list still inside the window grows by the time of the check
    when the check let that token through, and not otherwise. *)
Lemma authorize_hits now authorization w token now' :
  now <= now' ->
  prune now' (hits_of token (authorize now authorization w).2)
  = prune now' (hits_of token w)
    ++ prune now' (admitted token [(now, (authorize now authorization w).1)]).
Proof.
  intros Hle. rewrite admitted_one.
  destruct (authorize_cases now authorization w)
    as [(Hb & e0 & He0 & ->)
       |(tok & Hb & [(Hv & ->)|[(Hv & Hlt & ->)|(Hv & Hge & ->)]])];
    cbn [fst snd].
  - rewrite decide_False by done. by rewrite app_nil_r.
  - rewrite decide_False by done. by rewrite app_nil_r.
  - destruct (decide (tok = token)) as [->|Hne].
    + rewrite decide_True by done. rewrite hits_of_set_hits.
      by rewrite prune_app, prune_prune.
    + rewrite decide_False by congruence.
      rewrite hits_of_set_hits_ne by done. by rewrite app_nil_r.
  - rewrite decide_False by done. rewrite app_nil_r.
    destruct (decide (tok = token)) as [->|Hne].
    + rewrite hits_of_set_hits. by rewrite prune_prune.
    + by rewrite hits_of_set_hits_ne.
Qed.

(** After a run, what is left of a token's list inside the window of any
    reading [now'] not earlier than the requests is what was there before,
    followed by the times at which the run let the token through. *)
Lemma gate_run_hits token now' reqs : forall w,
  (forall r, r ∈ reqs -> r.1 <= now') ->
  prune now' (hits_of token (run reqs w).2)
  = prune now' (hits_of token w) ++ prune now' (admitted token (run reqs w).1).
Proof.
  induction reqs as [|[now a] reqs IH]; intros w Hle; simpl.
  - by rewrite app_nil_r.
  - pose proof (authorize_hits now a w token now') as Hstep.
    destruct (authorize now a w) as [r w1]. cbn [fst snd] in Hstep.
    specialize (IH w1). destruct (run reqs w1) as [outs w2].
    cbn [fst snd] in *.
    rewrite IH by (intros r' Hr'; apply Hle; by right).
    rewrite Hstep by (apply (Hle (now, a)); left).
    change ((now, r) :: outs) with ([(now, r)] ++ outs).
    by rewrite admitted_app, prune_app, app_assoc.
Qed.

Lemma filter_length_mono {A} (P Q : A -> Prop)
    `{!forall x, Decision (P x), !forall x, Decision (Q x)} (l : list A) :
  (forall x, x ∈ l -> P x -> Q x) ->
  (length (filter P l) <= length (filter Q l))%nat.
Proof.
  induction l as [|x l IH]; intros Himp; [done|].
  assert (IH' : (length (filter P l) <= length (filter Q l))%nat).
  { apply IH. intros y Hy. apply Himp. by right. }
  rewrite !filter_cons.
  destruct (decide (P x)) as [HP|HP], (decide (Q x)) as [HQ|HQ]; simpl; try lia.
  destruct HQ. apply Himp; [left|done].
Qed.

Lemma gate_run_one now authorization w :
  (run [(now, authorization)] w).1 = [(now, (authorize now authorization w).1)].
Proof. simpl. by destruct (authorize now authorization w). Qed.

Lemma authorize_ok_under now authorization w token :
  (authorize now authorization w).1 = Ok token ->
  (length (prune now (hits_of token w)) < RATE_LIMIT_MAX)%nat.
Proof.
  destruct (authorize_cases now authorization w)
    as [(Hb & e0 & He0 & ->)
       |(tok & Hb & [(Hv & ->)|[(Hv & Hlt & ->)|(Hv & Hge & ->)]])];
    cbn [fst]; try discriminate.
  by intros [= <-].
Qed.

Lemma hits_of_fresh token : hits_of token fresh = [].
Proof. reflexivity. Qed.

(** From a start with nothing on record and a clock that does not run
    backwards: the list of a token, pruned at the time of the next request,
    holds the earlier admissions of that token inside the window. *)
Lemma gate_run_record token pre now :
  (forall r, r ∈ pre -> r.1 <= now) ->
  prune now (hits_of token (run pre fresh).2)
  = prune now (admitted token (run pre fresh).1).
Proof. intros Hle. by rewrite gate_run_hits, hits_of_fresh. Qed.

Lemma sorted_before (pre : list (Z * option string)) now post :
  StronglySorted Z.le (pre ++ now :: post).*1 ->
  forall r, r ∈ pre -> r.1 <= now.1.
Proof.
  rewrite fmap_app, fmap_cons. intros Hs r Hr.
  eapply StronglySorted_app_1_elem_of; [exact Hs| |left].
  by apply list_elem_of_fmap_2.
Qed.

Lemma admitted_window_bound token reqs :
  StronglySorted Z.le reqs.*1 ->
  forall T : Z,
    (length (filter (fun t => T - 60 < t <= T)%Z
               (admitted token (run reqs fresh).1)) <= RATE_LIMIT_MAX)%nat.
Proof.
  induction reqs as [|[now a] pre IH] using rev_ind; intros Hs T.
  { simpl. lia. }
  pose proof (sorted_before pre (now, a) [] Hs) as Hle. simpl in Hle.
  rewrite fmap_app in Hs. apply StronglySorted_app_1_l in Hs.
  specialize (IH Hs T).
  rewrite gate_run_app. cbn [fst].
  rewrite gate_run_one, admitted_app, admitted_one, filter_app, length_app.
  destruct (decide (_ = Ok token)) as [Hok|Hno]; [|simpl; lia].
  apply authorize_ok_under in Hok. rewrite gate_run_record in Hok by done.
  rewrite filter_cons, filter_nil.
  destruct (decide (T - 60 < now <= T)) as [Hin|Hout]; [|simpl; lia].
  simpl.
  pose proof (filter_length_mono (fun t => T - 60 < t <= T)
                (fun t => now - t < RATE_LIMIT_WINDOW)
                (admitted token (run pre fresh).1)) as Hmono.
  unfold prune in Hok. unfold RATE_LIMIT_WINDOW in *.
  assert (Hm := Hmono ltac:(intros; lia)). lia.
Qed.

(** C3 (as amended): for a registered token, in a run of gate checks that
    starts with nothing on record and whose clock readings do not decrease,
    a check is let through exactly when fewer than 20 earlier checks of that
    token were let through less than 60 time units before it, and is
    refused with 429 otherwise; hence at most 20 of the checks let through
    have their times in any one interval [(T - 60, T]]. *)
Theorem C3_sliding_window (token : string) (reqs : list (Z * option string)) :
  token ∈ VALID_ACCESS_TOKENS MASTER_API_KEY ->
  StronglySorted Z.le reqs.*1 ->
  (forall T : Z,
     (length (filter (fun t => T - 60 < t <= T)%Z
                (admitted token (run reqs fresh).1)) <= 20)%nat)
  /\ (forall pre now authorization post,
        reqs = pre ++ (now, authorization) :: post ->
        bearer_token authorization = Some token ->
        (run reqs fresh).1 !! length pre
        = Some (now,
                if decide (length (prune now
                                     (admitted token (run pre fresh).1))
                           < 20)%nat
                then Ok token else Raise rate_limited)).
Proof.
  intros Hv Hs. split; [by apply admitted_window_bound|].
  intros pre now a post -> Hb.
  pose proof (sorted_before pre (now, a) post Hs) as Hle. simpl in Hle.
  rewrite gate_run_app. cbn [fst].
  rewrite lookup_app_r by (rewrite gate_run_length; lia).
  rewrite gate_run_length, Nat.sub_diag.
  rewrite <- (gate_run_record token pre now Hle).
  simpl.
  destruct (authorize_cases now a (run pre fresh).2)
    as [(Hb' & _)
       |(tok & Hb' & [(Hv' & _)|[(_ & Hlt & ->)|(_ & Hge & ->)]])].
  - congruence.
  - assert (tok = token) as -> by congruence. contradiction.
  - assert (tok = token) as -> by congruence.
    destruct (run post _). simpl. rewrite decide_True; [done|exact Hlt].
  - assert (tok = token) as -> by congruence.
    destruct (run post _). simpl. rewrite decide_False; [done|].
    unfold RATE_LIMIT_MAX in Hge. lia.
Qed.

End GateFacts.

(** ** The completion client and the request handlers *)

Section HandlerFacts.

Variables MASTER_API_KEY MODEL : string.
Variable MAX_TOKENS : Z.
Variable create : ChatRequest -> Upstream.

Abbreviation gate := (_authorize MASTER_API_KEY).
Abbreviation call_openai := (_call_openai MODEL MAX_TOKENS create).
Abbreviation generate :=
  (generate_content MASTER_API_KEY MODEL MAX_TOKENS create).
Abbreviation rewrite_ :=
  (rewrite_content MASTER_API_KEY MODEL MAX_TOKENS create).
Abbreviation translate :=
  (translate_content MASTER_API_KEY MODEL MAX_TOKENS create).


Lemma call_openai_sent system user w :
  sent (call_openai system user w).2
  = sent w ++ [mkChatRequest MODEL system user MAX_TOKENS].
Proof. unfold _call_openai. by destruct (build_response _ _ _ _ _). Qed.



Lemma handler_passed now authorization system user w token :
  (gate now authorization w).1 = Ok token ->
  (_ <- gate now authorization ;; call_openai system user) w
  = call_openai system user (gate now authorization w).2.
Proof.
  unfold bind. by destruct (gate now authorization w) as [[tok|e] w1].
Qed.

Lemma handler_refused now authorization system user w e :
  (gate now authorization w).1 = Raise e ->
  (_ <- gate now authorization ;; call_openai system user) w
  = (Raise e, (gate now authorization w).2).
Proof.
  unfold bind. destruct (gate now authorization w) as [[tok|e'] w1]; [done|].
  by intros [= ->].
Qed.



(** *** The completion client *)



(** *** POST /api/rewrite *)

Lemma style_instructions_improved :
  style_instructions !! "improved"
  = Some "Improve the clarity, flow, and impact while keeping the original meaning.".
Proof. reflexivity. Qed.

Lemma style_instructions_unknown s :
  s ∉ known_styles -> style_instructions !! s = None.
Proof. intros Hs. by apply not_elem_of_list_to_map_1. Qed.

Lemma rewrite_instruction_unknown body :
  (forall s, RewriteRequest.style body = Some s -> s ∉ known_styles) ->
  rewrite_instruction body
  = "Improve the clarity, flow, and impact while keeping the original meaning.".
Proof.
  intros Hs. unfold rewrite_instruction.
  destruct (RewriteRequest.style body) as [[|c s]|] eqn:Hstyle; simpl PyStr.or_else.
  - by rewrite style_instructions_improved.
  - rewrite style_instructions_unknown by by apply Hs. reflexivity.
  - by rewrite style_instructions_improved.
Qed.

(** C6: a rewrite request whose style is none of the five known ones is
    answered with the instruction of the style [improved], and the handler
    does on it what it does on the same text with the style [improved]: no
    outcome depends on the style being known. *)
Theorem C6_unknown_style_falls_back (body : RewriteRequest.t) :
  (forall s, RewriteRequest.style body = Some s -> s ∉ known_styles) ->
  rewrite_instruction body
  = "Improve the clarity, flow, and impact while keeping the original meaning."
  /\ rewrite_system body
     = "You are an expert editor and writing coach. "
       +:+ "Improve the clarity, flow, and impact while keeping the original meaning."
       +:+ " Return the rewritten text in Markdown format. "
       +:+ "After the rewrite, add a brief '---\n**Changes made:**' section listing key improvements."
  /\ (forall now authorization w,
        rewrite_ now body authorization w
        = rewrite_ now
            (RewriteRequest.mk (RewriteRequest.text body) (Some "improved"))
            authorization w)
  /\ (forall now authorization w token,
        (gate now authorization w).1 = Ok token ->
        sent (rewrite_ now body authorization w).2
        = sent w
          ++ [mkChatRequest MODEL
                (rewrite_system
                   (RewriteRequest.mk (RewriteRequest.text body)
                      (Some "improved")))
                ("Please rewrite the following text:" +:+ nl +:+ nl
                 +:+ RewriteRequest.text body)
                MAX_TOKENS]).
Proof.
  intros Hs. pose proof (rewrite_instruction_unknown body Hs) as Hi.
  assert (Hsys : rewrite_system body
                 = rewrite_system
                     (RewriteRequest.mk (RewriteRequest.text body)
                        (Some "improved"))).
  { unfold rewrite_system. by rewrite Hi. }
  split; [exact Hi|]. split; [unfold rewrite_system; by rewrite Hi|].
  split.
  - intros now a w. unfold rewrite_content. by rewrite Hsys.
  - intros now a w token Hok. unfold rewrite_content.
    by rewrite (handler_passed _ _ _ _ _ token Hok), call_openai_sent, Hsys,
      authorize_sent.
Qed.

(** *** POST /api/translate *)

(** C7: with [source_lang] equal to ["auto"] the user message is the text
    of the request as it is; with any other [source_lang] it is the line
    [Translate from <source_lang> to <target_lang>:], an empty line and the
    text, where a language left as [null] in the body reads [None]; that
    message is what a request let through by the gate sends to the
    client. *)
Theorem C7_translate_user_message (body : TranslateRequest.t) :
  (TranslateRequest.source_lang body = Some "auto" ->
   translate_user_msg body = TranslateRequest.text body)
  /\ (forall s t,
        TranslateRequest.source_lang body <> Some "auto" ->
        (TranslateRequest.source_lang body = Some s
         \/ TranslateRequest.source_lang body = None /\ s = "None") ->
        (TranslateRequest.target_lang body = Some t
         \/ TranslateRequest.target_lang body = None /\ t = "None") ->
        translate_user_msg body
        = "Translate from " +:+ s +:+ " to " +:+ t +:+ ":"
          +:+ String "010" (String "010" (TranslateRequest.text body)))
  /\ (forall now authorization w token,
        (gate now authorization w).1 = Ok token ->
        sent (translate now body authorization w).2
        = sent w
          ++ [mkChatRequest MODEL translate_system (translate_user_msg body)
                MAX_TOKENS]).
Proof.
  split; [|split].
  - intros Hsrc. unfold translate_user_msg. by rewrite bool_decide_eq_true_2.
  - intros s t Hne Hs Ht. unfold translate_user_msg.
    rewrite bool_decide_eq_false_2 by done. cbn [negb].
    destruct Hs as [->|[-> ->]], Ht as [->|[-> ->]]; reflexivity.
  - intros now a w token Hok. unfold translate_content.
    by rewrite (handler_passed _ _ _ _ _ token Hok), call_openai_sent,
      authorize_sent.
Qed.

(** *** POST /api/generate *)

(** C9: a generate request whose tone is ["professional"], empty or absent
    and whose language is ["en"], empty or absent gets the base instruction
    of its content type with nothing appended, the same instruction as the
    request that leaves both fields to their defaults, and the handler does
    the same on both. *)
Theorem C9_generate_defaults (body : GenerateRequest.t) :
  GenerateRequest.tone body ∈ [None; Some ""; Some "professional"] ->
  GenerateRequest.language body ∈ [None; Some ""; Some "en"] ->
  let omitted :=
    GenerateRequest.mk (GenerateRequest.type body) (GenerateRequest.prompt body)
      (Some "professional") (Some "en") in
  generate_system body = SYSTEM_PROMPTS (GenerateRequest.type body)
  /\ generate_system body = generate_system omitted
  /\ (forall now authorization w,
        generate now body authorization w
        = generate now omitted authorization w).
Proof.
  intros Htone Hlang omitted.
  assert (Hsys : generate_system body = SYSTEM_PROMPTS (GenerateRequest.type body)).
  { unfold generate_system.
    repeat (apply elem_of_cons in Htone as [->|Htone]);
      [| | |by apply elem_of_nil in Htone];
      repeat (apply elem_of_cons in Hlang as [->|Hlang]);
      try (by apply elem_of_nil in Hlang); reflexivity. }
  split; [exact Hsys|]. split; [by rewrite Hsys|].
  intros now a w. unfold generate_content. by rewrite Hsys.
Qed.

End HandlerFacts.

(** ** Concrete requests *)

Lemma append_empty_r (word : string) : word +:+ "" = word.
Proof.
  induction word as [|c word IH]; [done|].
  change (String c (word +:+ "") = String c word). by rewrite IH.
Qed.

Lemma append_snoc (word : string) c s :
  (word +:+ String c "") +:+ s = word +:+ String c s.
Proof.
  induction word as [|c' word IH]; [done|].
  change (String c' ((word +:+ String c "") +:+ s)
          = String c' (word +:+ String c s)).
  by rewrite IH.
Qed.

Lemma split_from_word word s :
  no_space s = true ->
  PyStr.split_from word s
  = if decide (word +:+ s = "") then [] else [word +:+ s].
Proof.
  revert word. induction s as [|c s IH]; intros word Hs.
  - rewrite append_empty_r. reflexivity.
  - cbn [no_space] in Hs. apply andb_prop in Hs as [Hc Hs].
    apply negb_true_iff in Hc. cbn [PyStr.split_from].
    by rewrite Hc, IH, append_snoc.
Qed.

(** The header as a client writes it, [Bearer] followed by one blank and a
    token without white space, has the shape the gate asks for. *)
Lemma bearer_shape_plain token :
  token <> "" -> no_space token = true ->
  bearer_shape ("Bearer " +:+ token) token.
Proof.
  intros Hne Hs. exists "Bearer". split; [|reflexivity].
  change (PyStr.split ("Bearer " +:+ token))
    with ("Bearer" :: PyStr.split_from "" token).
  rewrite split_from_word by done. simpl. by rewrite decide_False.
Qed.

Example split_ex :
  PyStr.split "  Bearer   abc " = ["Bearer"; "abc"].
Proof. reflexivity. Qed.

Example bearer_token_ex :
  bearer_token (Some "bEARER k") = Some "k"
  /\ bearer_token (Some "Token abc") = None
  /\ bearer_token (Some "Bearer") = None
  /\ bearer_token (Some "Bearer a b") = None
  /\ bearer_token (Some "") = None.
Proof. repeat split. Qed.

(** A header of the wrong scheme is turned away with 401 and nothing is
    sent upstream. *)
Example wrong_scheme_ex :
  _authorize "k" 7 (Some "Token abc") fresh
  = (Raise (mkHTTPException 401
              "Invalid Authorization format. Use: Bearer <token>"), fresh).
Proof. reflexivity. Qed.

(** Twenty-one requests with the registered token within ten time units:
    twenty are let through, the last is refused. *)
Example burst_ex :
  (gate_run "k" (replicate 21 (3, Some "Bearer k")) fresh).1
  = replicate 20 (3, Ok "k") ++ [(3, Raise rate_limited)].
Proof. vm_compute. reflexivity. Qed.

(** *** The quota is counted over the checks let through *)

(** C3 (as stated) fails on the code: after twenty checks at time 0 (let
    through) and twenty at time 1 (refused), the check at time 60 is the
    21st check of the registered token inside its window, for the twenty of
    time 1 are 59 units old, and it is let through: the refused checks left
    no trace and the hits of time 0 have left the window. *)
Lemma C3_counterexample :
  "k" ∈ VALID_ACCESS_TOKENS "k"
  /\ StronglySorted Z.le two_bursts_then_one.*1
  /\ length (prune 60 (presented "k" two_bursts)) = 20%nat
  /\ (gate_run "k" two_bursts_then_one fresh).1 !! 40%nat = Some (60, Ok "k").
Proof.
  split; [by apply elem_of_singleton|].
  split; [apply (bool_decide_unpack _); by vm_compute|].
  split; by vm_compute.
Qed.

Lemma C3_sliding_window_witness :
  (forall T : Z,
     (length (filter (fun t => T - 60 < t <= T)%Z
                (admitted "k" (gate_run "k" two_bursts_then_one fresh).1)) <= 20)%nat)
  /\ (gate_run "k" two_bursts_then_one fresh).1 !! 40%nat
     = Some (60%Z,
             if decide (length (prune 60
                                  (admitted "k" (gate_run "k" two_bursts fresh).1))
                        < 20)%nat
             then Ok "k" else Raise rate_limited).
Proof.
  pose proof (C3_sliding_window "k" "k" two_bursts_then_one) as H.
  destruct H as [Hbound Hnth].
  - by apply elem_of_singleton.
  - apply (bool_decide_unpack _). by vm_compute.
  - split; [exact Hbound|].
    exact (Hnth two_bursts 60 (Some "Bearer k") [] eq_refl eq_refl).
Defined.

(** The bound on a window rests on the clock: were it to step back from
    200 to 101, twenty hits of time 100 and nineteen of time 101 would be
    let through, for the check at time 200 has dropped the former. *)
Example clock_steps_back_ex :
  admitted "k"
    (gate_run "k"
       (replicate 20 (100, Some "Bearer k") ++ [(200, Some "Bearer k")]
        ++ replicate 19 (101, Some "Bearer k")) fresh).1
  = replicate 20 100 ++ [200] ++ replicate 19 101.
Proof. by vm_compute. Qed.

(** *** A refused request records no hit *)



Lemma C5_quota_after_idle_witness :
  _check_rate_limit 100 "k" idle_world = (Ok tt, set_hits "k" [100] idle_world)
  /\ (checks "k" (100 :: replicate 19 130) idle_world).1 = replicate 20 (Ok tt).
Proof.
  pose proof (C5_quota_after_idle "k" 100 idle_world (replicate 19 130)) as H.
  destruct H as (Hfirst & Hall & _).
  - intros t Ht. change (hits_of "k" idle_world) with [0; 10; 40] in Ht.
    repeat (apply elem_of_cons in Ht as [->|Ht]; [lia|]).
    by apply elem_of_nil in Ht.
  - reflexivity.
  - by split.
Defined.

Lemma pirate_unknown : forall s, Some "pirate" = Some s -> s ∉ known_styles.
Proof.
  intros s [= <-] Hin. unfold known_styles in Hin.
  repeat (apply elem_of_cons in Hin as [Heq|Hin]; [discriminate|]).
  by apply elem_of_nil in Hin.
Defined.

Lemma C6_unknown_style_falls_back_witness :
  rewrite_instruction (RewriteRequest.mk "Hello world" (Some "pirate"))
  = "Improve the clarity, flow, and impact while keeping the original meaning.".
Proof.
  exact (proj1 (C6_unknown_style_falls_back "k" "gpt-4o-mini" 2048 demo_create
                  (RewriteRequest.mk "Hello world" (Some "pirate"))
                  pirate_unknown)).
Defined.

Lemma C9_generate_defaults_witness :
  generate_system (GenerateRequest.mk email "welcome" (Some "") None)
  = SYSTEM_PROMPTS email.
Proof.
  refine (proj1 (C9_generate_defaults "k" "gpt-4o-mini" 2048 demo_create
                   (GenerateRequest.mk email "welcome" (Some "") None) _ _)).
  - simpl. apply elem_of_cons. right. apply elem_of_cons. by left.
  - simpl. apply elem_of_cons. by left.
Defined.

(** Each of the three errors of the client is met, and so is the answer
    without content or usage. *)
Example call_openai_ex :
  (_call_openai "m" 16 (fun _ => Raises (mkPyExc RateLimitError "slow down"))
     "s" "u" fresh).1
  = Raise (mkHTTPException 429
             "OpenAI rate limit reached. Please try again shortly.")
  /\ (_call_openai "m" 16 (fun _ => Raises (mkPyExc APIError "bad gateway"))
        "s" "u" fresh).1
     = Raise (mkHTTPException 502 "OpenAI API error: bad gateway")
  /\ (_call_openai "m" 16 (fun _ => Raises (mkPyExc Exception "boom"))
        "s" "u" fresh).1
     = Raise (mkHTTPException 500 "Internal error: boom")
  /\ (_call_openai "m" 16
        (fun _ => Returns (mkChatCompletion [None] None None)) "s" "u" fresh).1
     = Ok (mkAIResponse "" (mkUsage 0 0 0) "m").
Proof. repeat split. Qed.

(** A translation from a named language, and one whose source is left out
    of the request body as [null]. *)
Example translate_user_msg_ex :
  translate_user_msg (TranslateRequest.mk "Bonjour" (Some "fr") (Some "en"))
  = "Translate from fr to en:" +:+ nl +:+ nl +:+ "Bonjour"
  /\ translate_user_msg (TranslateRequest.mk "Bonjour" (Some "auto") (Some "en"))
     = "Bonjour"
  /\ translate_user_msg (TranslateRequest.mk "Bonjour" None None)
     = "Translate from None to None:" +:+ nl +:+ nl +:+ "Bonjour".
Proof. repeat split. Qed.

Example generate_system_ex :
  generate_system (GenerateRequest.mk blog "p" (Some "witty") (Some "fr"))
  = SYSTEM_PROMPTS blog +:+ nl +:+ nl +:+ "Use a witty tone throughout."
    +:+ nl +:+ nl +:+ "Write the content in fr.".
Proof. reflexivity. Qed.

(** * Further properties of the gate, the limiter and the handlers *)

(** ** White space and case in the [Authorization] header *)

Lemma no_space_app s1 s2 :
  no_space (s1 +:+ s2) = no_space s1 && no_space s2.
Proof.
  induction s1 as [|c s1 IH]; [done|].
  change (no_space (String c (s1 +:+ s2))
          = no_space (String c s1) && no_space s2).
  cbn [no_space]. by rewrite IH, andb_assoc.
Qed.

Lemma append_assoc (s1 s2 s3 : string) :
  (s1 +:+ s2) +:+ s3 = s1 +:+ s2 +:+ s3.
Proof.
  induction s1 as [|c s1 IH]; [done|].
  change (String c ((s1 +:+ s2) +:+ s3) = String c (s1 +:+ s2 +:+ s3)).
  by rewrite IH.
Qed.

Lemma append_empty_inv (s1 s2 : string) : s1 +:+ s2 = "" -> s1 = "".
Proof. by destruct s1. Qed.

(** The parts [split] returns are not empty and hold no white space. *)
Lemma split_from_parts s : forall word,
  no_space word = true ->
  Forall (fun part => part <> "" /\ no_space part = true)
    (PyStr.split_from word s).
Proof.
  induction s as [|c s IH]; intros word Hw; cbn [PyStr.split_from].
  - destruct (decide (word = "")); [constructor|].
    by repeat constructor.
  - destruct (PyStr.isspace c) eqn:Hc.
    + destruct (decide (word = "")); [by apply IH|].
      constructor; [done|by apply IH].
    + apply IH. rewrite no_space_app, Hw. cbn [no_space]. by rewrite Hc.
Qed.

Lemma bearer_token_clean authorization token :
  bearer_token authorization = Some token ->
  token <> "" /\ no_space token = true.
Proof.
  intros (h & _ & scheme & Hsplit & _)%bearer_token_shape.
  pose proof (split_from_parts h "" eq_refl) as Hparts.
  fold (PyStr.split h) in Hparts. rewrite Hsplit in Hparts.
  by apply Forall_cons in Hparts as [_ [Htok _]%Forall_cons].
Qed.

Lemma split_from_skip ws s :
  all_space ws = true ->
  PyStr.split_from "" (ws +:+ s) = PyStr.split_from "" s.
Proof.
  induction ws as [|c ws IH]; intros Hws; [done|].
  cbn [all_space] in Hws. apply andb_prop in Hws as [Hc Hws].
  change (PyStr.split_from "" (String c (ws +:+ s)) = PyStr.split_from "" s).
  cbn [PyStr.split_from]. rewrite Hc. by apply IH.
Qed.

Lemma split_from_all_space ws :
  all_space ws = true -> PyStr.split_from "" ws = [].
Proof.
  intros Hws. rewrite <- (append_empty_r ws).
  by rewrite split_from_skip.
Qed.

(** A run without white space, then white space: the run is one part. *)
Lemma split_from_part part ws s : forall word,
  no_space part = true -> word +:+ part <> "" ->
  all_space ws = true -> ws <> "" ->
  PyStr.split_from word (part +:+ ws +:+ s)
  = (word +:+ part) :: PyStr.split_from "" s.
Proof.
  induction part as [|c part IH]; intros word Hp Hne Hws Hws'.
  - rewrite append_empty_r in Hne.
    destruct ws as [|c ws]; [done|].
    cbn [all_space] in Hws. apply andb_prop in Hws as [Hc Hws].
    change (PyStr.split_from word (String c (ws +:+ s))
            = (word +:+ "") :: PyStr.split_from "" s).
    cbn [PyStr.split_from]. rewrite Hc, decide_False by done.
    by rewrite append_empty_r, split_from_skip.
  - cbn [no_space] in Hp. apply andb_prop in Hp as [Hc Hp].
    apply negb_true_iff in Hc.
    change (PyStr.split_from word (String c (part +:+ ws +:+ s))
            = (word +:+ String c part) :: PyStr.split_from "" s).
    cbn [PyStr.split_from]. rewrite Hc, IH; try done.
    + by rewrite append_snoc.
    + by rewrite append_snoc.
Qed.

(** A run without white space at the end of the string, white space after
    it or not. *)
Lemma split_from_last part ws :
  no_space part = true -> part <> "" -> all_space ws = true ->
  PyStr.split_from "" (part +:+ ws) = [part].
Proof.
  intros Hp Hne Hws. destruct ws as [|c ws].
  - rewrite append_empty_r, split_from_word by done.
    by rewrite decide_False.
  - rewrite <- (append_empty_r (String c ws)).
    rewrite (split_from_part part (String c ws) "" ""); done.
Qed.

Lemma isspace_lower_char c :
  PyStr.isspace c = true -> PyStr.isspace (PyStr.lower_char c) = true.
Proof. destruct c as [[] [] [] [] [] [] [] []]; by vm_compute. Qed.

Lemma no_space_lower s : no_space (PyStr.lower s) = true -> no_space s = true.
Proof.
  induction s as [|c s IH]; [done|]. cbn [PyStr.lower no_space].
  intros [Hc Hs]%andb_prop. rewrite IH by done. rewrite andb_true_r.
  apply negb_true_iff. apply negb_true_iff in Hc.
  destruct (PyStr.isspace c) eqn:E; [|done].
  by rewrite isspace_lower_char in Hc.
Qed.

(** X1: a header made of any white space, a scheme that reads [bearer] in
    whatever case, white space, a token that is not empty and holds no
    white space, and any white space again, presents that token: leading,
    trailing and repeated white space is ignored and the scheme is matched
    without regard to case. *)
Theorem X1_header_tolerance (ws0 scheme ws1 token ws2 : string) :
  all_space ws0 = true -> all_space ws1 = true -> ws1 <> "" ->
  all_space ws2 = true ->
  PyStr.lower scheme = "bearer" ->
  token <> "" -> no_space token = true ->
  bearer_token (Some (ws0 +:+ scheme +:+ ws1 +:+ token +:+ ws2)) = Some token.
Proof.
  intros H0 H1 H1' H2 Hlow Hne Htok.
  assert (Hs : no_space scheme = true)
    by (apply no_space_lower; by rewrite Hlow).
  assert (Hs' : scheme <> "") by (intros ->; discriminate).
  apply bearer_token_shape. eexists. split; [reflexivity|].
  exists scheme. split; [|done]. unfold PyStr.split.
  rewrite split_from_skip by done.
  rewrite (split_from_part scheme ws1 _ "") by done.
  by rewrite split_from_last.
Qed.

Lemma X1_header_tolerance_witness :
  bearer_token (Some ("  " +:+ "BeArEr" +:+ "   " +:+ "tok" +:+ " "))
  = Some "tok".
Proof. by apply X1_header_tolerance. Defined.

(** ** What the gate lets through *)

Section GateMore.

Variable MASTER_API_KEY : string.

Abbreviation authorize' := (_authorize MASTER_API_KEY).
Abbreviation run' := (gate_run MASTER_API_KEY).

(** X2: when the gate returns a token, it is the master key, it was
    presented in a well-formed header, it is not empty and holds no white
    space; the limiter had fewer than 20 hits of it left in the window and
    now has [now] as the last one; nothing was sent upstream and no other
    entry of the limiter changed. *)
Theorem X2_authorized (now : Z) (authorization : option string) (w w' : World)
    (token : string) :
  authorize' now authorization w = (Ok token, w') ->
  token = MASTER_API_KEY
  /\ bearer_token authorization = Some token
  /\ token <> "" /\ no_space token = true
  /\ (length (prune now (hits_of token w)) < 20)%nat
  /\ hits_of token w' = prune now (hits_of token w) ++ [now]
  /\ last (hits_of token w') = Some now
  /\ sent w' = sent w
  /\ (forall token', token' <> token ->
        _rate_limit w' !! token' = _rate_limit w !! token').
Proof.
  intros Hrun.
  destruct (authorize_cases MASTER_API_KEY now authorization w)
    as [(Hb & e0 & He0 & Heq)
       |(tok & Hb & [(Hv & Heq)|[(Hv & Hlt & Heq)|(Hv & Hge & Heq)]])];
    rewrite Heq in Hrun; try discriminate.
  injection Hrun as -> <-.
  destruct (bearer_token_clean _ _ Hb) as [Hne Hns].
  split; [by apply elem_of_singleton in Hv|].
  repeat (split; [done|]).
  rewrite hits_of_set_hits. split; [done|]. split; [by rewrite last_snoc|].
  split; [done|].
  intros token' Hne'. simpl. by rewrite lookup_insert_ne.
Qed.

(** X3: a master key that is empty or holds white space can never be
    presented: every request is turned away with 401 or 403 and the state
    stays as it was. *)
Theorem X3_unusable_key (now : Z) (authorization : option string) (w : World) :
  MASTER_API_KEY = "" \/ no_space MASTER_API_KEY = false ->
  exists e, authorize' now authorization w = (Raise e, w)
            /\ (status_code e = 401 \/ status_code e = 403).
Proof.
  intros Hkey.
  destruct (authorize_cases MASTER_API_KEY now authorization w)
    as [(Hb & e0 & He0 & Heq)
       |(tok & Hb & [(Hv & Heq)|[(Hv & Hlt & Heq)|(Hv & Hge & Heq)]])].
  - exists e0. split; [done|]. by left.
  - exists forbidden. split; [done|]. by right.
  - apply elem_of_singleton in Hv as ->.
    destruct (bearer_token_clean _ _ Hb) as [Hne Hns].
    destruct Hkey as [Hkey|Hkey]; congruence.
  - apply elem_of_singleton in Hv as ->.
    destruct (bearer_token_clean _ _ Hb) as [Hne Hns].
    destruct Hkey as [Hkey|Hkey]; congruence.
Qed.

End GateMore.

Lemma X2_authorized_witness :
  last (hits_of "k" (set_hits "k" [41; 100] fresh)) = Some 100.
Proof.
  pose proof (X2_authorized "k" 100 (Some "Bearer k") stale_world
                (set_hits "k" [41; 100] fresh) "k") as H.
  destruct H as (_ & _ & _ & _ & _ & _ & Hlast & _); [by vm_compute|].
  exact Hlast.
Defined.

Lemma X3_unusable_key_witness :
  exists e, _authorize "my key" 5 (Some "Bearer my key") fresh = (Raise e, fresh)
            /\ (status_code e = 401 \/ status_code e = 403).
Proof. apply X3_unusable_key. by right. Defined.

(** ** The limiter, check by check *)

Lemma set_hits_set_hits token hits hits' w :
  set_hits token hits (set_hits token hits' w) = set_hits token hits w.
Proof. unfold set_hits; simpl. by rewrite insert_insert_eq. Qed.

Lemma set_hits_commute token token' hits hits' w :
  token <> token' ->
  set_hits token hits (set_hits token' hits' w)
  = set_hits token' hits' (set_hits token hits w).
Proof. intros Hne. unfold set_hits; simpl. by rewrite insert_insert_ne. Qed.

(** X4: after a check, let through or not, the token has an entry in the
    dictionary, every timestamp in it is less than 60 units older than
    [now], and each one is [now] or was on record before. *)
Theorem X4_stored_within_window (now : Z) (token : string) (w : World) :
  let w' := (_check_rate_limit now token w).2 in
  _rate_limit w' !! token = Some (hits_of token w')
  /\ Forall (fun t => now - t < 60) (hits_of token w')
  /\ Forall (fun t => t = now \/ t ∈ hits_of token w) (hits_of token w').
Proof.
  intros w'. subst w'. unfold _check_rate_limit.
  assert (Hin : Forall (fun t => now - t < 60) (prune now (hits_of token w))).
  { apply Forall_forall. by intros t [_ Ht]%elem_of_prune. }
  assert (Hold : Forall (fun t => t = now \/ t ∈ hits_of token w)
                   (prune now (hits_of token w))).
  { apply Forall_forall. intros t [Ht _]%elem_of_prune. by right. }
  destruct (decide _); cbn [snd]; rewrite hits_of_set_hits;
    (split; [by apply lookup_insert_eq|]).
  - by split.
  - split; apply Forall_app; (split; [done|]); repeat constructor. lia.
Qed.

(** X5: a refused check costs nothing later.  When the check at [now] is
    refused, the check at any [now'] not before [now] gives the outcome
    and the state it would have given had the refused one not been made. *)
Theorem X5_refusal_no_penalty (now now' : Z) (token : string) (w : World) :
  now <= now' ->
  (_check_rate_limit now token w).1 = Raise rate_limited ->
  _check_rate_limit now' token (_check_rate_limit now token w).2
  = _check_rate_limit now' token w.
Proof.
  intros Hle. unfold _check_rate_limit at 1 3.
  destruct (decide _) as [Hge|Hlt]; cbn [fst snd]; [intros _|discriminate].
  unfold _check_rate_limit.
  rewrite hits_of_set_hits, prune_prune by done.
  destruct (decide _); by rewrite set_hits_set_hits.
Qed.

Lemma X5_refusal_no_penalty_witness :
  _check_rate_limit 61 "k" (_check_rate_limit 1 "k" full_world).2
  = _check_rate_limit 61 "k" full_world.
Proof. apply X5_refusal_no_penalty; [lia|by vm_compute]. Defined.

Lemma check_rate_limit_state now token w :
  (_check_rate_limit now token w).2
  = set_hits token (hits_of token (_check_rate_limit now token w).2) w.
Proof.
  unfold _check_rate_limit. destruct (decide _); cbn [snd];
    by rewrite hits_of_set_hits.
Qed.

Lemma check_rate_limit_other now token token' hits w :
  token <> token' ->
  _check_rate_limit now token' (set_hits token hits w)
  = ((_check_rate_limit now token' w).1,
     set_hits token hits (_check_rate_limit now token' w).2).
Proof.
  intros Hne. unfold _check_rate_limit. rewrite hits_of_set_hits_ne by done.
  destruct (decide _); cbn [fst snd]; f_equal; by apply set_hits_commute.
Qed.

(** X6: checks of two different tokens do not see each other: made in
    either order they give the same two outcomes and the same state. *)
Theorem X6_tokens_independent (now now' : Z) (token token' : string)
    (w : World) :
  token <> token' ->
  let a := _check_rate_limit now token w in
  let b := _check_rate_limit now' token' a.2 in
  let b' := _check_rate_limit now' token' w in
  let a' := _check_rate_limit now token b'.2 in
  a.1 = a'.1 /\ b.1 = b'.1 /\ b.2 = a'.2.
Proof.
  intros Hne a b b' a'. subst a b b' a'.
  pose proof (check_rate_limit_state now token w) as Ha.
  pose proof (check_rate_limit_state now' token' w) as Hb.
  remember (hits_of token (_check_rate_limit now token w).2) as X eqn:HX.
  remember (hits_of token' (_check_rate_limit now' token' w).2) as Y eqn:HY.
  clear HX HY. rewrite Ha, Hb.
  rewrite (check_rate_limit_other now' token token') by done.
  rewrite (check_rate_limit_other now token' token) by done.
  cbn [fst snd]. rewrite Ha, Hb.
  split; [done|]. split; [done|]. by apply set_hits_commute.
Qed.

Lemma X6_tokens_independent_witness :
  (_check_rate_limit 1 "a" full_world).1
  = (_check_rate_limit 1 "a" (_check_rate_limit 2 "k" full_world).2).1.
Proof.
  refine (proj1 (X6_tokens_independent 1 2 "a" "k" full_world _)).
  discriminate.
Defined.

(** ** Runs of the gate: what the dictionary holds *)

Lemma StronglySorted_sublist {A} (R : relation A) (l1 l2 : list A) :
  l1 `sublist_of` l2 -> StronglySorted R l2 -> StronglySorted R l1.
Proof.
  induction 1 as [|x l1 l2 Hsub IH|x l1 l2 Hsub IH]; intros Hs.
  - constructor.
  - apply StronglySorted_inv in Hs as [Hs Hall]. constructor; [by apply IH|].
    rewrite Forall_forall in *. intros y Hy. apply Hall.
    by eapply elem_of_sublist.
  - apply StronglySorted_inv in Hs as [Hs _]. by apply IH.
Qed.

Section RunFacts.

Variable MASTER_API_KEY : string.

Abbreviation valid := (VALID_ACCESS_TOKENS MASTER_API_KEY).
Abbreviation step := (_authorize MASTER_API_KEY).
Abbreviation trace := (gate_run MASTER_API_KEY).

Lemma bounded_fresh : bounded valid fresh.
Proof.
  split; [|intros token; rewrite hits_of_fresh; simpl; lia].
  unfold fresh; simpl. rewrite dom_empty_L. set_solver.
Qed.

Lemma set_hits_bounded token hits w :
  token ∈ valid -> (length hits <= RATE_LIMIT_MAX)%nat ->
  bounded valid w -> bounded valid (set_hits token hits w).
Proof.
  intros Hv Hlen [Hdom Hall]. split.
  - unfold set_hits; simpl. rewrite dom_insert_L.
    apply union_subseteq. split; [by apply singleton_subseteq_l|done].
  - intros token'. destruct (decide (token = token')) as [<-|Hne].
    + by rewrite hits_of_set_hits.
    + by rewrite hits_of_set_hits_ne.
Qed.

Lemma authorize_bounded now authorization w :
  bounded valid w -> bounded valid (step now authorization w).2.
Proof.
  intros Hb.
  destruct (authorize_cases MASTER_API_KEY now authorization w)
    as [(_ & e0 & _ & ->)
       |(tok & _ & [(_ & ->)|[(Hv & Hlt & ->)|(Hv & Hge & ->)]])];
    cbn [snd]; try done; apply set_hits_bounded; try done.
  - rewrite length_app. simpl. lia.
  - pose proof (prune_length now (hits_of tok w)). destruct Hb as [_ Hall].
    specialize (Hall tok). lia.
Qed.

Lemma gate_run_bounded reqs : forall w,
  bounded valid w -> bounded valid (trace reqs w).2.
Proof.
  induction reqs as [|[now a] reqs IH]; intros w Hb; simpl; [done|].
  pose proof (authorize_bounded now a w Hb) as Hb1.
  destruct (step now a w) as [r w1]. specialize (IH w1 Hb1).
  by destruct (trace reqs w1).
Qed.

Lemma gate_run_sent reqs : forall w, sent (trace reqs w).2 = sent w.
Proof.
  induction reqs as [|[now a] reqs IH]; intros w; simpl; [done|].
  pose proof (authorize_sent MASTER_API_KEY now a w) as Hs.
  destruct (step now a w) as [r w1]. specialize (IH w1).
  destruct (trace reqs w1). simpl in *. congruence.
Qed.

(** X7: whatever requests arrive, at whatever times and with whatever
    headers, the dictionary of the limiter only ever has entries for
    registered tokens, none of them longer than 20 timestamps, and the gate
    sends nothing upstream: unknown tokens and malformed headers cost no
    memory. *)
Theorem X7_bounded_memory (reqs : list (Z * option string)) :
  let w := (trace reqs fresh).2 in
  dom (_rate_limit w) ⊆ valid
  /\ (forall token, (length (hits_of token w) <= 20)%nat)
  /\ (forall token, token ∉ valid -> _rate_limit w !! token = None)
  /\ sent w = [].
Proof.
  intros w. subst w.
  destruct (gate_run_bounded reqs fresh bounded_fresh) as [Hdom Hlen].
  split; [done|]. split; [done|]. split; [|by rewrite gate_run_sent].
  intros token Hnv. apply not_elem_of_dom. set_solver.
Qed.

(** *** The timestamps on record are times of admitted requests *)

Lemma gate_run_times reqs : forall w, (trace reqs w).1.*1 = reqs.*1.
Proof.
  induction reqs as [|[now a] reqs IH]; intros w; [done|].
  cbn [gate_run]. destruct (step now a w) as [r w1]. specialize (IH w1).
  destruct (trace reqs w1) as [outs w2]. cbn [fst] in *.
  rewrite !fmap_cons. cbn [fst]. by rewrite IH.
Qed.

Lemma admitted_sublist token outs : admitted token outs `sublist_of` outs.*1.
Proof. unfold admitted. apply fmap_sublist, sublist_filter. Qed.

Lemma authorize_recorded now authorization w token :
  hits_of token (step now authorization w).2
  `sublist_of`
  hits_of token w ++ admitted token [(now, (step now authorization w).1)].
Proof.
  rewrite admitted_one.
  destruct (authorize_cases MASTER_API_KEY now authorization w)
    as [(_ & e0 & _ & ->)
       |(tok & _ & [(_ & ->)|[(Hv & Hlt & ->)|(Hv & Hge & ->)]])];
    cbn [fst snd]; try by apply sublist_inserts_r.
  - destruct (decide (tok = token)) as [->|Hne].
    + rewrite hits_of_set_hits, decide_True by done.
      apply sublist_app; [apply sublist_filter|done].
    + rewrite hits_of_set_hits_ne by done. by apply sublist_inserts_r.
  - apply sublist_inserts_r. destruct (decide (tok = token)) as [->|Hne].
    + rewrite hits_of_set_hits. apply sublist_filter.
    + by rewrite hits_of_set_hits_ne.
Qed.

Lemma gate_run_recorded token reqs : forall w,
  hits_of token (trace reqs w).2
  `sublist_of` hits_of token w ++ admitted token (trace reqs w).1.
Proof.
  induction reqs as [|[now a] reqs IH]; intros w; simpl.
  - by rewrite app_nil_r.
  - pose proof (authorize_recorded now a w token) as Hstep.
    destruct (step now a w) as [r w1]. cbn [fst snd] in Hstep.
    specialize (IH w1). destruct (trace reqs w1) as [outs w2].
    cbn [fst snd] in *.
    change ((now, r) :: outs) with ([(now, r)] ++ outs).
    rewrite admitted_app, app_assoc.
    etrans; [exact IH|]. by apply sublist_app.
Qed.

(** X8: after any run from an empty dictionary the timestamps on record
    for a token are times at which a request of that token was let through,
    in the order of the requests; when the clock readings of the run do not
    decrease they are in non-decreasing order. *)
Theorem X8_recorded_admitted (token : string) (reqs : list (Z * option string)) :
  hits_of token (trace reqs fresh).2
  `sublist_of` admitted token (trace reqs fresh).1
  /\ (StronglySorted Z.le reqs.*1 ->
      StronglySorted Z.le (hits_of token (trace reqs fresh).2)).
Proof.
  assert (Hsub : hits_of token (trace reqs fresh).2
                 `sublist_of` admitted token (trace reqs fresh).1).
  { pose proof (gate_run_recorded token reqs fresh) as H.
    by rewrite hits_of_fresh in H. }
  split; [exact Hsub|]. intros Hs.
  apply (StronglySorted_sublist _ _ reqs.*1); [|done].
  etrans; [exact Hsub|]. rewrite <- (gate_run_times reqs fresh).
  apply admitted_sublist.
Qed.

(** *** A burst inside one window *)

Lemma gate_run_one_window lo reqs : forall w,
  MASTER_API_KEY ∈ valid ->
  Forall (fun r => bearer_token r.2 = Some MASTER_API_KEY
                   /\ lo <= r.1 < lo + 60) reqs ->
  (forall t, t ∈ hits_of MASTER_API_KEY w -> lo <= t < lo + 60) ->
  (length (hits_of MASTER_API_KEY w) <= RATE_LIMIT_MAX)%nat ->
  (trace reqs w).1.*2
  = replicate (min (RATE_LIMIT_MAX - length (hits_of MASTER_API_KEY w))
                 (length reqs)) (Ok MASTER_API_KEY)
    ++ replicate (length reqs
                  - (RATE_LIMIT_MAX - length (hits_of MASTER_API_KEY w)))
         (Raise rate_limited).
Proof.
  induction reqs as [|[now a] reqs IH]; intros w Hv Hall Hw Hlen.
  { simpl. by rewrite Nat.min_0_r. }
  apply Forall_cons in Hall as [[Hb Hnow] Hall]. simpl in Hb, Hnow.
  assert (Hkeep : prune now (hits_of MASTER_API_KEY w)
                  = hits_of MASTER_API_KEY w).
  { apply prune_all_fresh. intros t Hin. specialize (Hw t Hin). lia. }
  cbn [gate_run].
  destruct (decide (length (hits_of MASTER_API_KEY w) < RATE_LIMIT_MAX)%nat)
    as [Hlt|Hge].
  - rewrite (authorize_known_under _ _ _ MASTER_API_KEY)
      by (rewrite ?Hkeep; done).
    destruct (trace reqs _) as [outs w2] eqn:Hrun.
    change outs with (outs, w2).1. rewrite <- Hrun. cbn [fst snd fmap list_fmap].
    change (list_fmap _ _ snd ?l) with (l.*2).
    rewrite IH; rewrite ?hits_of_set_hits, ?Hkeep, ?length_app; simpl;
      try done.
    + replace (RATE_LIMIT_MAX - length (hits_of MASTER_API_KEY w))%nat
        with (S (RATE_LIMIT_MAX
                 - (length (hits_of MASTER_API_KEY w) + 1)))%nat by lia.
      reflexivity.
    + intros t [Hin| ->%list_elem_of_singleton]%elem_of_app; auto.
    + lia.
  - rewrite (authorize_known_over _ _ _ MASTER_API_KEY)
      by (rewrite ?Hkeep; done || lia).
    destruct (trace reqs _) as [outs w2] eqn:Hrun.
    change outs with (outs, w2).1. rewrite <- Hrun. cbn [fst snd fmap list_fmap].
    change (list_fmap _ _ snd ?l) with (l.*2).
    rewrite IH; rewrite ?hits_of_set_hits, ?Hkeep; simpl; try done.
    replace (RATE_LIMIT_MAX - length (hits_of MASTER_API_KEY w))%nat
      with 0%nat by lia.
    simpl. by rewrite Nat.sub_0_r.
Qed.

(** X9: a burst of requests that all present the master key, at times that
    fit in one span of less than 60 units, starting from an empty
    dictionary: the first 20 are let through and every later one is
    refused with 429, however many there are. *)
Theorem X9_burst (lo : Z) (reqs : list (Z * option string)) :
  Forall (fun r => bearer_token r.2 = Some MASTER_API_KEY
                   /\ lo <= r.1 < lo + 60) reqs ->
  (trace reqs fresh).1.*2
  = replicate (min 20 (length reqs)) (Ok MASTER_API_KEY)
    ++ replicate (length reqs - 20) (Raise rate_limited).
Proof.
  intros Hall.
  rewrite (gate_run_one_window lo reqs fresh); rewrite ?hits_of_fresh; try done.
  - by apply elem_of_singleton.
  - intros t Ht. by apply elem_of_nil in Ht.
  - simpl. lia.
Qed.

End RunFacts.

Lemma X9_burst_witness :
  (gate_run "k" (replicate 25 (3, Some "Bearer k")) fresh).1.*2
  = replicate (min 20 (length (replicate 25 (3, Some "Bearer k")))) (Ok "k")
    ++ replicate (length (replicate 25 (3, Some "Bearer k")) - 20)
         (Raise rate_limited).
Proof.
  apply (X9_burst "k" 0). apply Forall_replicate. split; [reflexivity|].
  simpl. lia.
Defined.

(** ** The handlers, end to end *)

Lemma length_append (s1 s2 : string) :
  String.length (s1 +:+ s2) = (String.length s1 + String.length s2)%nat.
Proof.
  induction s1 as [|c s1 IH]; [done|].
  change (S (String.length (s1 +:+ s2))
          = S (String.length s1 + String.length s2)).
  by rewrite IH.
Qed.

Lemma prefix_append (s1 s2 : string) : String.prefix s1 (s1 +:+ s2) = true.
Proof.
  induction s1 as [|c s1 IH]; [by destruct s2|].
  change (String.prefix (String c s1) (String c (s1 +:+ s2)) = true).
  cbn [String.prefix]. by destruct (ascii_dec c c).
Qed.

Lemma append_eq_self (s1 s2 : string) : s1 +:+ s2 = s1 -> s2 = "".
Proof.
  intros Heq. apply (f_equal String.length) in Heq.
  rewrite length_append in Heq. destruct s2; [done|]. simpl in Heq. lia.
Qed.

Lemma generate_system_clauses body :
  generate_system body
  = SYSTEM_PROMPTS (GenerateRequest.type body)
    +:+ tone_clause body +:+ language_clause body.
Proof.
  unfold generate_system, tone_clause, language_clause.
  destruct (_ && _); destruct (_ && _);
    rewrite ?append_empty_r, ?append_assoc; reflexivity.
Qed.

Lemma tone_clause_empty body :
  tone_clause body = ""
  <-> GenerateRequest.tone body ∈ [None; Some ""; Some "professional"].
Proof.
  unfold tone_clause. rewrite !elem_of_cons, elem_of_nil.
  destruct (GenerateRequest.tone body) as [[|c t]|]; simpl.
  - split; auto.
  - destruct (bool_decide_reflect (Some (String c t) = Some "professional"))
      as [Heq|Hne]; simpl.
    + split; auto.
    + split; [discriminate|]. intros [?|[?|[?|[]]]]; congruence.
  - split; auto.
Qed.

Lemma language_clause_empty body :
  language_clause body = ""
  <-> GenerateRequest.language body ∈ [None; Some ""; Some "en"].
Proof.
  unfold language_clause. rewrite !elem_of_cons, elem_of_nil.
  destruct (GenerateRequest.language body) as [[|c t]|]; simpl.
  - split; auto.
  - destruct (bool_decide_reflect (Some (String c t) = Some "en"))
      as [Heq|Hne]; simpl.
    + split; auto.
    + split; [discriminate|]. intros [?|[?|[?|[]]]]; congruence.
  - split; auto.
Qed.

(** X10: the instruction of a generate request always begins with the base
    instruction of its content type, and it is that base instruction alone
    exactly when the tone is ["professional"], empty or absent and the
    language is ["en"], empty or absent: any other tone or language
    lengthens it. *)
Theorem X10_generate_system_base (body : GenerateRequest.t) :
  String.prefix (SYSTEM_PROMPTS (GenerateRequest.type body))
    (generate_system body) = true
  /\ (generate_system body = SYSTEM_PROMPTS (GenerateRequest.type body)
      <-> GenerateRequest.tone body ∈ [None; Some ""; Some "professional"]
          /\ GenerateRequest.language body ∈ [None; Some ""; Some "en"]).
Proof.
  rewrite generate_system_clauses. split; [apply prefix_append|].
  rewrite <- tone_clause_empty, <- language_clause_empty. split.
  - intros Heq%append_eq_self. split; [by apply append_empty_inv in Heq|].
    destruct (tone_clause body); [done|discriminate].
  - intros [-> ->]. by rewrite append_empty_r.
Qed.

Section HandlerMore.

Variables MASTER_API_KEY MODEL : string.
Variable MAX_TOKENS : Z.
Variable create : ChatRequest -> Upstream.

Abbreviation gate' := (_authorize MASTER_API_KEY).
Abbreviation client := (_call_openai MODEL MAX_TOKENS create).
Abbreviation generate' :=
  (generate_content MASTER_API_KEY MODEL MAX_TOKENS create).
Abbreviation rewrite' :=
  (rewrite_content MASTER_API_KEY MODEL MAX_TOKENS create).
Abbreviation translate' :=
  (translate_content MASTER_API_KEY MODEL MAX_TOKENS create).

(** X11: a request the gate turns away never reaches the provider: each of
    the three handlers returns the gate's error as it is, in the state the
    gate left, and nothing is sent upstream. *)
Theorem X11_refused_sends_nothing (now : Z) (authorization : option string)
    (w : World) (e : HTTPException) :
  (gate' now authorization w).1 = Raise e ->
  (forall body, generate' now body authorization w
                = (Raise e, (gate' now authorization w).2))
  /\ (forall body, rewrite' now body authorization w
                   = (Raise e, (gate' now authorization w).2))
  /\ (forall body, translate' now body authorization w
                   = (Raise e, (gate' now authorization w).2))
  /\ sent (gate' now authorization w).2 = sent w.
Proof.
  intros He. unfold generate_content, rewrite_content, translate_content.
  repeat split; try (intros body; by apply handler_refused).
  apply authorize_sent.
Qed.

(** X12: a request the gate lets through makes exactly one call to the
    provider, whatever the provider answers: the model and the token limit
    are the configured ones, the system message is the composed
    instruction and the user message is the prompt, the text behind
    [Please rewrite the following text:], or the translation message. *)
Theorem X12_one_upstream_call (now : Z) (authorization : option string)
    (w : World) (token : string) :
  (gate' now authorization w).1 = Ok token ->
  (forall body,
     sent (generate' now body authorization w).2
     = sent w ++ [mkChatRequest MODEL (generate_system body)
                    (GenerateRequest.prompt body) MAX_TOKENS])
  /\ (forall body,
        sent (rewrite' now body authorization w).2
        = sent w ++ [mkChatRequest MODEL (rewrite_system body)
                       ("Please rewrite the following text:" +:+ nl +:+ nl
                        +:+ RewriteRequest.text body) MAX_TOKENS])
  /\ (forall body,
        sent (translate' now body authorization w).2
        = sent w ++ [mkChatRequest MODEL translate_system
                       (translate_user_msg body) MAX_TOKENS]).
Proof.
  intros Hok. unfold generate_content, rewrite_content, translate_content.
  repeat split; intros body;
    by rewrite (handler_passed _ _ _ _ _ _ _ _ _ token Hok), call_openai_sent,
         authorize_sent.
Qed.

Lemma call_openai_status system user w e :
  (client system user w).1 = Raise e ->
  status_code e = 429 \/ status_code e = 502 \/ status_code e = 500.
Proof.
  unfold _call_openai, build_response.
  destruct (create _) as [resp|[[] msg]]; [destruct (choices resp)|..];
    cbn [fst]; intros [= <-]; simpl; auto.
Qed.

Lemma handler_status now authorization system user w e :
  ((_ <- gate' now authorization ;; client system user) w).1 = Raise e ->
  status_code e ∈ [401; 403; 429; 502; 500].
Proof.
  unfold bind.
  destruct (authorize_cases MASTER_API_KEY now authorization w)
    as [(_ & e0 & He0 & ->)
       |(tok & _ & [(_ & ->)|[(_ & _ & ->)|(_ & _ & ->)]])]; cbn [fst].
  - intros [= <-]. rewrite He0. set_solver.
  - intros [= <-]. set_solver.
  - intros [?|[?|?]]%call_openai_status; set_solver.
  - intros [= <-]. set_solver.
Qed.

(** X13: the only status codes the three handlers raise are 401, 403, 429,
    502 and 500. *)
Theorem X13_handler_status_codes (now : Z) (authorization : option string)
    (w : World) :
  (forall body e, (generate' now body authorization w).1 = Raise e ->
                  status_code e ∈ [401; 403; 429; 502; 500])
  /\ (forall body e, (rewrite' now body authorization w).1 = Raise e ->
                     status_code e ∈ [401; 403; 429; 502; 500])
  /\ (forall body e, (translate' now body authorization w).1 = Raise e ->
                     status_code e ∈ [401; 403; 429; 502; 500]).
Proof.
  unfold generate_content, rewrite_content, translate_content.
  repeat split; intros body e; apply handler_status.
Qed.

(** X14: the instruction of a rewrite request is always one of the five
    entries of the style table, so no text of the request reaches the
    system message; a known style gets its own entry. *)
Theorem X14_rewrite_instruction_range (body : RewriteRequest.t) :
  (exists s, s ∈ known_styles
             /\ style_instructions !! s = Some (rewrite_instruction body))
  /\ (forall s, RewriteRequest.style body = Some s -> s ∈ known_styles ->
        style_instructions !! s = Some (rewrite_instruction body)).
Proof.
  assert (Hknown : forall s, s ∈ known_styles ->
            style_instructions !! s
            = Some (default (style_instructions !!! "improved")
                      (style_instructions !! s))).
  { intros s Hs. unfold known_styles in Hs.
    repeat (apply elem_of_cons in Hs as [->|Hs]; [reflexivity|]).
    by apply elem_of_nil in Hs. }
  assert (Himp : "improved" ∈ known_styles) by (unfold known_styles; set_solver).
  split.
  - unfold rewrite_instruction.
    destruct (decide (PyStr.or_else (RewriteRequest.style body) "improved"
                      ∈ known_styles)) as [Hin|Hout].
    + eexists. split; [exact Hin|]. by apply Hknown.
    + exists "improved". split; [done|].
      by rewrite (style_instructions_unknown _ Hout).
  - intros s Hstyle Hs. unfold rewrite_instruction. rewrite Hstyle.
    assert (Hne : s <> "").
    { intros ->. unfold known_styles in Hs.
      repeat (apply elem_of_cons in Hs as [Heq|Hs]; [discriminate|]).
      by apply elem_of_nil in Hs. }
    destruct s as [|c s]; [done|]. simpl PyStr.or_else. by apply Hknown.
Qed.

(** X15: with [source_lang] equal to ["auto"] the target language of a
    translate request is not used: the handler does the same whatever
    [target_lang] is. *)
Theorem X15_auto_ignores_target (body : TranslateRequest.t)
    (target : option string) :
  TranslateRequest.source_lang body = Some "auto" ->
  forall now authorization w,
    translate' now body authorization w
    = translate' now
        (TranslateRequest.mk (TranslateRequest.text body) (Some "auto") target)
        authorization w.
Proof.
  intros Hsrc now a w. unfold translate_content, translate_user_msg.
  rewrite Hsrc. cbn [TranslateRequest.source_lang TranslateRequest.text].
  by rewrite bool_decide_eq_true_2.
Qed.

End HandlerMore.

Lemma X11_refused_sends_nothing_witness :
  sent (_authorize "k" 7 (Some "Token abc") fresh).2 = sent fresh.
Proof.
  pose proof (X11_refused_sends_nothing "k" "gpt-4o-mini" 2048 demo_create 7
                (Some "Token abc") fresh
                (mkHTTPException 401
                   "Invalid Authorization format. Use: Bearer <token>")
                eq_refl) as H.
  exact (proj2 (proj2 (proj2 H))).
Defined.

Lemma X12_one_upstream_call_witness :
  sent (generate_content "k" "gpt-4o-mini" 2048 demo_create 7
          (GenerateRequest.mk blog "coffee shop opening" None None)
          (Some "Bearer k") fresh).2
  = sent fresh
    ++ [mkChatRequest "gpt-4o-mini"
          (generate_system
             (GenerateRequest.mk blog "coffee shop opening" None None))
          "coffee shop opening" 2048].
Proof.
  pose proof (X12_one_upstream_call "k" "gpt-4o-mini" 2048 demo_create 7
                (Some "Bearer k") fresh "k") as H.
  destruct H as (Hgen & _); [by vm_compute|].
  exact (Hgen (GenerateRequest.mk blog "coffee shop opening" None None)).
Defined.

Lemma X15_auto_ignores_target_witness :
  translate_content "k" "gpt-4o-mini" 2048 demo_create 7
    (TranslateRequest.mk "Bonjour" (Some "auto") (Some "en"))
    (Some "Bearer k") fresh
  = translate_content "k" "gpt-4o-mini" 2048 demo_create 7
      (TranslateRequest.mk "Bonjour" (Some "auto") (Some "zh"))
      (Some "Bearer k") fresh.
Proof.
  exact (X15_auto_ignores_target "k" "gpt-4o-mini" 2048 demo_create
           (TranslateRequest.mk "Bonjour" (Some "auto") (Some "en"))
           (Some "zh") eq_refl 7 (Some "Bearer k") fresh).
Defined.

(** ** When a refused token is let through again *)

Lemma prune_sorted_head now t0 hits :
  StronglySorted Z.le (t0 :: hits) ->
  (now - t0 < 60 /\ prune now (t0 :: hits) = t0 :: hits)
  \/ (now - t0 >= 60
      /\ (length (prune now (t0 :: hits)) <= length hits)%nat).
Proof.
  intros [Hs Hall]%StronglySorted_inv.
  destruct (decide (now - t0 < 60)) as [Hin|Hout].
  - left. split; [done|]. apply prune_all_fresh.
    intros t [->|Ht]%elem_of_cons; [done|].
    rewrite Forall_forall in Hall. specialize (Hall t Ht). lia.
  - right. split; [lia|]. unfold prune.
    rewrite filter_cons_False by (unfold RATE_LIMIT_WINDOW; lia).
    apply length_filter.
Qed.

(** X16: in a state where the token's list is in non-decreasing order and
    holds at most 20 timestamps (as every list a run of the gate builds on
    a clock that does not step back), a token refused at [now] is let
    through at a later time [now'] exactly when the oldest timestamp still
    on record is then at least 60 units old. *)
Theorem X16_retry_after (now now' t0 : Z) (token : string) (w : World) :
  StronglySorted Z.le (hits_of token w) ->
  (length (hits_of token w) <= 20)%nat ->
  (_check_rate_limit now token w).1 = Raise rate_limited ->
  head (hits_of token (_check_rate_limit now token w).2) = Some t0 ->
  now <= now' ->
  (_check_rate_limit now' token (_check_rate_limit now token w).2).1 = Ok tt
  <-> now' - t0 >= 60.
Proof.
  intros Hs Hlen Href Hhead Hle.
  destruct (decide (RATE_LIMIT_MAX <= length (prune now (hits_of token w)))%nat)
    as [Hge|Hlt];
    [|rewrite check_rate_limit_under in Href by lia; discriminate].
  rewrite (check_rate_limit_over now token w Hge) in Hhead |- *.
  cbn [snd] in *. rewrite hits_of_set_hits in Hhead.
  assert (Hps : StronglySorted Z.le (prune now (hits_of token w)))
    by (eapply StronglySorted_sublist; [apply sublist_filter|done]).
  pose proof (prune_length now (hits_of token w)) as Hpl.
  unfold RATE_LIMIT_MAX in Hge.
  destruct (prune now (hits_of token w)) as [|t hits]; [discriminate|].
  injection Hhead as ->. simpl in Hge, Hpl.
  unfold _check_rate_limit. rewrite hits_of_set_hits.
  destruct (prune_sorted_head now' t0 hits Hps) as [[Hin Heq]|[Hout Hshort]].
  - rewrite Heq, decide_True by (unfold RATE_LIMIT_MAX; simpl; lia).
    cbn [fst]. split; [discriminate|lia].
  - rewrite decide_False by (unfold RATE_LIMIT_MAX; lia).
    cbn [fst]. split; [lia|done].
Qed.

Lemma X16_retry_after_witness :
  (_check_rate_limit 60 "k" (_check_rate_limit 1 "k" full_world).2).1 = Ok tt
  <-> 60 - 0 >= 60.
Proof.
  apply X16_retry_after; try by vm_compute.
  change (hits_of "k" full_world) with (replicate 20 0).
  apply (bool_decide_unpack _). by vm_compute.
Defined.

(** ** The two 401 messages *)

(** X17: the gate answers [Missing Authorization header] exactly to a
    request without the header or with an empty one; every other header
    that does not present a token, one made of white space only included,
    is answered [Invalid Authorization format. Use: Bearer <token>]; both
    with status 401 and the state as it was. *)
Theorem X17_missing_or_malformed (key : string) (now : Z)
    (authorization : option string) (w : World) :
  bearer_token authorization = None ->
  _authorize key now authorization w
  = (Raise (mkHTTPException 401
              (if decide (authorization = None \/ authorization = Some "")
               then "Missing Authorization header"
               else "Invalid Authorization format. Use: Bearer <token>")), w).
Proof.
  unfold bearer_token, _authorize.
  destruct authorization as [[|c h]|].
  - intros _. by rewrite decide_True by auto.
  - rewrite decide_False by (intros [?|?]; discriminate).
    change (PyStr.truthy (Some (String c h))) with true. cbn [negb].
    destruct (PyStr.split _) as [|scheme [|tok [|x l]]]; try done.
    destruct (negb (String.eqb _ _)); [done|discriminate].
  - intros _. by rewrite decide_True by auto.
Qed.

Lemma X17_missing_or_malformed_witness :
  _authorize "k" 3 (Some "   ") fresh
  = (Raise (mkHTTPException 401
              (if decide (Some "   " = None \/ Some "   " = Some "")
               then "Missing Authorization header"
               else "Invalid Authorization format. Use: Bearer <token>")),
     fresh).
Proof. by apply X17_missing_or_malformed. Defined.
